(** * gitguard-prepare: the commit-message preparation hook

    A shallow embedding of [packages/gitguard/gitguard-prepare.py] and the
    properties of its change-set analysis and message synthesis pipeline.

    Conventions of the embedding.
    - A Python [str] is a [string]; every character stands for one code
      point below 256, so [lower] and [strip] follow [str.lower] and
      [str.strip] on that range.
    - A Python [set] of labels is a [gset string]; the order in which the
      interpreter iterates over it is a parameter ([set_iter]).
    - The insertion-ordered [dict] of the collector is an association list.
    - Exceptions and [sys.exit] are results of a small state-and-error
      monad; the terminal, standard input and the commit-message file are
      fields of its state. *)

From Stdlib Require Import Ascii String ZArith List Bool Lia Permutation.
From stdpp Require Import base gmap sets list strings.

Import ListNotations.
#[local] Set Warnings "-register-all".
#[local] Arguments String.append !_ _ / : simpl nomatch.

(** ** Python string primitives *)

Module PyStr.

(** [s.startswith(pre)] *)
Fixpoint startswith (pre s : string) : bool :=
  match pre, s with
  | EmptyString, _ => true
  | String a p, String b t => if Ascii.eqb a b then startswith p t else false
  | String _ _, EmptyString => false
  end.

(** [pat in s] *)
Fixpoint contains (pat s : string) : bool :=
  startswith pat s ||
  match s with
  | EmptyString => false
  | String _ t => contains pat t
  end.

(** [c in s] for a single character [c]. *)
Fixpoint has_char (c : ascii) (s : string) : bool :=
  match s with
  | EmptyString => false
  | String a t => Ascii.eqb a c || has_char c t
  end.

(** [str.lower] on one code point below 256: the ASCII capitals and the
    Latin-1 capitals U+00C0..U+00DE, the multiplication sign excepted. *)
Definition lower_char (c : ascii) : ascii :=
  let n := nat_of_ascii c in
  if (Nat.leb 65 n && Nat.leb n 90)
     || (Nat.leb 192 n && Nat.leb n 222 && negb (Nat.eqb n 215))
  then ascii_of_nat (n + 32) else c.

Fixpoint lower (s : string) : string :=
  match s with
  | EmptyString => EmptyString
  | String c t => String (lower_char c) (lower t)
  end.

(** [str.isspace] on one code point below 256. *)
Definition is_space (c : ascii) : bool :=
  let n := nat_of_ascii c in
  (Nat.leb 9 n && Nat.leb n 13) || (Nat.leb 28 n && Nat.leb n 32)
  || Nat.eqb n 133 || Nat.eqb n 160.

(** [s.lstrip()] *)
Fixpoint lstrip (s : string) : string :=
  match s with
  | EmptyString => EmptyString
  | String c t => if is_space c then lstrip t else s
  end.

(** [s.rstrip()] *)
Fixpoint rstrip (s : string) : string :=
  match s with
  | EmptyString => EmptyString
  | String c t =>
      match rstrip t with
      | EmptyString => if is_space c then EmptyString else String c EmptyString
      | r => String c r
      end
  end.

(** [s.strip()] *)
Definition strip (s : string) : string := rstrip (lstrip s).

(** [s.split(sep)] for a one-character separator: never empty. *)
Fixpoint split (sep : ascii) (s : string) : list string :=
  match s with
  | EmptyString => [EmptyString]
  | String c t =>
      if Ascii.eqb c sep then EmptyString :: split sep t
      else match split sep t with
           | h :: r => String c h :: r
           | [] => [String c EmptyString]
           end
  end.

(** [s.split(sep, 1)]: one element when [sep] is absent, else two. *)
Fixpoint split1 (sep : ascii) (s : string) : list string :=
  match s with
  | EmptyString => [EmptyString]
  | String c t =>
      if Ascii.eqb c sep then [EmptyString; t]
      else match split1 sep t with
           | h :: r => String c h :: r
           | [] => [String c EmptyString]
           end
  end.

(** [sep.join(l)] *)
Fixpoint join (sep : string) (l : list string) : string :=
  match l with
  | [] => EmptyString
  | [x] => x
  | x :: r => x +:+ sep +:+ join sep r
  end.

(** The line feed, as a string. *)
Definition nl : string := String "010" EmptyString.

(** [Path(s).name]: the last component of the path, empty and [.]
    components dropped; the empty string when none is left. *)
Definition path_name (s : string) : string :=
  List.last
    (List.filter (fun c => negb (String.eqb c "" || String.eqb c "."))
                 (split "/" s))
    "".

End PyStr.
Import PyStr.

(** ** The change-type classifier *)

Definition any_in (patterns : list string) (s : string) : bool :=
  existsb (fun pattern => contains pattern s) patterns.

Definition test_markers : list string := [".test."; ".spec."; "/tests/"].
Definition docs_markers : list string := [".md"; "readme"; "docs/"].
Definition style_markers : list string := [".css"; ".scss"; ".styled."].
Definition chore_markers : list string := ["package.json"; ".config."; "tsconfig"].
Definition fix_markers : list string := ["fix"; "bug"; "patch"].

(** The [if]/[elif] chain of the loop body of [detect_change_types]: the
    label the file adds to [types], if any. *)
Definition file_label (file : string) : option string :=
  let file_lower := lower file in
  let name := lower (path_name file) in
  if any_in test_markers file_lower then Some "test"
  else if any_in docs_markers file_lower then Some "docs"
  else if any_in style_markers file_lower then Some "style"
  else if any_in chore_markers name then Some "chore"
  else if any_in fix_markers file_lower then Some "fix"
  else None.

(** One iteration of the loop: [types.add(label)] or nothing. *)
Definition add_file_type (types : gset string) (file : string) : gset string :=
  match file_label file with
  | Some label => {[label]} ∪ types
  | None => types
  end.

Definition detect_change_types (files : list string) : gset string :=
  let types := foldl add_file_type ∅ files in
  if decide (types = ∅) then {["feat"]} ∪ types else types.

(** ** Python values, exceptions and the state of a run *)

(** The values [json.loads] produces (numbers restricted to integers).
    A [VDict] lists the entries of the parsed object, each key once. *)
Inductive value : Type :=
| VNone
| VBool (b : bool)
| VInt (n : Z)
| VStr (s : string)
| VList (l : list value)
| VDict (d : list (string * value)).

(** Truth value of an object in a condition. *)
Definition truthy (v : value) : bool :=
  match v with
  | VNone => false
  | VBool b => b
  | VInt n => negb (Z.eqb n 0)
  | VStr s => negb (String.eqb s "")
  | VList l => negb (Nat.eqb (length l) 0)
  | VDict d => negb (Nat.eqb (length d) 0)
  end.

Inductive exn : Type :=
| CalledProcessError
| OSError
| KeyError
| IndexError
| TypeError
| AttributeError
| ValueError
| EOFError
| StopIteration
| JSONDecodeError
| UnicodeDecodeError
| APIError.

Inductive result (A : Type) : Type :=
| Val (a : A)
| Raise (e : exn)
| SysExit (code : Z).
Arguments Val {A} a.
Arguments Raise {A} e.
Arguments SysExit {A} code.

(** What the run prints, as far as the selection dialogue goes. *)
Inductive event : Type :=
| EBanner
| EIndex (i : nat)
| EField (label : string) (v : value)
| ERule
| EChoose
| EHelp
| EAIFailed (e : exn)
| EError (e : exn).

(** The mutable part of a run. [tty] is [None] when [/dev/tty] cannot be
    opened; [msg_file] is the text of the commit-message file, [None] when
    lines 292-294 cannot read it (the world says why, see
    [why_unreadable]). *)
Record state : Type := {
  tty : option (list string);
  stdin : list string;
  out : list event;
  msg_file : option string
}.

(** Outcome of the call to the completion service inside the [try]. *)
Inductive completion : Type :=
| CallRaises
| NotJson
| Json (v : value).

(** Why the commit message cannot be read: [sys.argv[1]] is missing, the
    file cannot be opened, or its bytes cannot be decoded. *)
Inductive read_failure : Type :=
| NoArgument
| CannotOpen
| CannotDecode.

(** The exception lines 292-294 raise in each case. *)
Definition read_failure_exn (f : read_failure) : exn :=
  match f with
  | NoArgument => IndexError
  | CannotOpen => OSError
  | CannotDecode => UnicodeDecodeError
  end.

(** The read-only surroundings of a run. [why_unreadable] matters only
    when [msg_file] of the state is [None]. *)
Record world : Type := {
  staged : option string;           (* git diff --cached --name-only *)
  package_json_name : string -> value; (* get_package_json_name *)
  set_iter : gset string -> list string; (* iteration order of a set *)
  has_openai : bool;                (* HAS_OPENAI *)
  ai_completion : completion;
  why_unreadable : read_failure
}.

(** Sequencing of fallible pure steps. *)
Definition rbind {A B} (r : result A) (k : A -> result B) : result B :=
  match r with
  | Val a => k a
  | Raise e => Raise e
  | SysExit c => SysExit c
  end.

Notation "x <-r m ;; k" := (rbind m (fun x => k))
  (at level 100, m at next level, right associativity).

Definition Py (A : Type) : Type := state -> result A * state.

Definition ret {A} (a : A) : Py A := fun st => (Val a, st).
Definition raise {A} (e : exn) : Py A := fun st => (Raise e, st).
Definition sys_exit {A} (code : Z) : Py A := fun st => (SysExit code, st).

Definition bind {A B} (m : Py A) (k : A -> Py B) : Py B :=
  fun st =>
    match m st with
    | (Val a, st') => k a st'
    | (Raise e, st') => (Raise e, st')
    | (SysExit c, st') => (SysExit c, st')
    end.

Notation "x <- m ;; k" := (bind m (fun x => k))
  (at level 100, m at next level, right associativity).
Notation "m ;;; k" := (bind m (fun _ => k))
  (at level 100, right associativity).

(** [try: m except Exception as e: h e]; [sys.exit] is not an [Exception]. *)
Definition try_except {A} (m : Py A) (h : exn -> Py A) : Py A :=
  fun st =>
    match m st with
    | (Raise e, st') => h e st'
    | r => r
    end.

Definition lift {A} (r : result A) : Py A := fun st => (r, st).

(** [input(...)]: the next line of standard input, [EOFError] at its end. *)
Definition input : Py string :=
  fun st =>
    match stdin st with
    | [] => (Raise EOFError, st)
    | line :: rest =>
        (Val line, {| tty := tty st; stdin := rest;
                      out := out st; msg_file := msg_file st |})
    end.

(** [commit_msg_file = sys.argv[1]] and [open(commit_msg_file).read()]:
    [IndexError] without the argument, [OSError] for a file that cannot
    be opened, [UnicodeDecodeError] for one that cannot be decoded. *)
Definition read_msg_file (w : world) : Py string :=
  fun st =>
    match msg_file st with
    | Some s => (Val s, st)
    | None => (Raise (read_failure_exn (why_unreadable w)), st)
    end.

(** [open(commit_msg_file, 'w')] then [f.write(v)]: the file is truncated
    before [write] rejects a value that is not a [str]. *)
Definition write_msg_file (v : value) : Py unit :=
  fun st =>
    match msg_file st, v with
    | None, _ => (Raise OSError, st)
    | Some _, VStr s =>
        (Val tt, {| tty := tty st; stdin := stdin st;
                    out := out st; msg_file := Some s |})
    | Some _, _ =>
        (Raise TypeError, {| tty := tty st; stdin := stdin st;
                             out := out st; msg_file := Some "" |})
    end.

(** ** The change-set collector *)

Record package : Type := {
  name : string;
  scope : string;
  files : list string;
  types : gset string
}.

(** [if k not in d: d[k] = []] followed by [d[k].append(v)] *)
Fixpoint dict_append (d : list (string * list string)) (k v : string)
  : list (string * list string) :=
  match d with
  | [] => [(k, [v])]
  | (k', vs) :: r =>
      if String.eqb k' k then (k', vs ++ [v]) :: r
      else (k', vs) :: dict_append r k v
  end.

(** Body of the first loop of [get_changed_packages]. *)
Definition add_changed_file (packages : list (string * list string))
  (file : string) : list (string * list string) :=
  if String.eqb file "" then packages
  else if startswith "packages/" file then
    let parts := split "/" file in
    if Nat.ltb 1 (length parts) then
      let pkg_path := "packages/" +:+ nth 1 parts "" in
      dict_append packages pkg_path file
    else packages
  else dict_append packages "root" file.

Definition group_files (changed_files : list string)
  : list (string * list string) :=
  foldl add_changed_file [] changed_files.

(** [s.split('/')[-1]] *)
Definition last_segment (s : string) : string := List.last (split "/" s) "".

(** Body of the second loop: one entry of [results]. *)
Definition make_package (w : world) (entry : string * list string)
  : result package :=
  let '(pkg_path, files) := entry in
  if String.eqb pkg_path "root" then
    Val {| name := "root"; scope := "root"; files := files;
           types := detect_change_types files |}
  else
    let pkg_name := package_json_name w pkg_path in
    if truthy pkg_name then
      match pkg_name with
      | VStr n =>
          Val {| name := n; scope := last_segment n; files := files;
                 types := detect_change_types files |}
      | _ => Raise AttributeError
      end
    else
      Val {| name := last_segment pkg_path; scope := last_segment pkg_path;
             files := files; types := detect_change_types files |}.

Fixpoint make_packages (w : world) (entries : list (string * list string))
  : result (list package) :=
  match entries with
  | [] => Val []
  | e :: r =>
      match make_package w e with
      | Val p =>
          match make_packages w r with
          | Val ps => Val (p :: ps)
          | Raise x => Raise x
          | SysExit c => SysExit c
          end
      | Raise x => Raise x
      | SysExit c => SysExit c
      end
  end.

Definition get_changed_packages (w : world) : result (list package) :=
  match staged w with
  | None => Raise CalledProcessError
  | Some output =>
      let changed_files := split "010" (strip output) in
      make_packages w (group_files changed_files)
  end.

(** ** The formatter *)

Definition next_iter (w : world) (s : gset string) : result string :=
  match set_iter w s with
  | x :: _ => Val x
  | [] => Raise StopIteration
  end.

Definition format_commit_message (w : world) (original_msg : string)
  (pkg : package) (commit_type : option string) : result string :=
  if has_char ":" original_msg then
    match split1 ":" original_msg with
    | [type_part; msg] =>
        let msg := strip msg in
        let commit_type :=
          if has_char "(" type_part && has_char ")" type_part
          then hd "" (split "(" type_part)
          else type_part in
        Val (commit_type +:+ "(" +:+ scope pkg +:+ "): " +:+ msg)
    | _ => Raise ValueError
    end
  else
    let msg := original_msg in
    match (match commit_type with
           | Some t => if String.eqb t "" then next_iter w (types pkg) else Val t
           | None => next_iter w (types pkg)
           end) with
    | Val commit_type => Val (commit_type +:+ "(" +:+ scope pkg +:+ "): " +:+ msg)
    | Raise e => Raise e
    | SysExit c => SysExit c
    end.

(** The type and description the colon branch of the formatter reads off
    a message; [None] when the message has no colon. *)
Definition extract_type_description (msg : string) : option (string * string) :=
  if has_char ":" msg then
    match split1 ":" msg with
    | [type_part; rest] =>
        Some (if has_char "(" type_part && has_char ")" type_part
              then hd "" (split "(" type_part) else type_part,
              strip rest)
    | _ => None
    end
  else None.

(** [main_type = next(iter(pkg['types']))] followed by the call of the
    formatter, as both branches of the fallback do. *)
Definition header (w : world) (original_msg : string) (pkg : package)
  : result string :=
  main_type <-r next_iter w (types pkg) ;;
  format_commit_message w original_msg pkg (Some main_type).

(** Lines 330-338 of [main]: the message built without the AI. *)
Definition fallback_message (w : world) (original_msg : string)
  (packages : list package) : result string :=
  if Nat.ltb 1 (length packages) then
    match packages with
    | [] => Raise IndexError
    | main_pkg :: _ =>
        new_msg <-r header w original_msg main_pkg ;;
        Val (new_msg +:+ nl +:+ nl +:+ "Affected packages:" +:+ nl
             +:+ join nl (map (fun p => "- " +:+ name p) packages))
    end
  else
    match packages with
    | [] => Raise IndexError
    | pkg :: _ => header w original_msg pkg
    end.

(** ** The AI suggestion step and the selector *)

(** [d.get(key)] on the entries of a parsed object. *)
Fixpoint dict_get (d : list (string * value)) (key : string) : option value :=
  match d with
  | [] => None
  | (k, v) :: r => if String.eqb k key then Some v else dict_get r key
  end.

(** [v[key]] for a string key. *)
Definition subscript_str (v : value) (key : string) : result value :=
  match v with
  | VDict d =>
      match dict_get d key with
      | Some x => Val x
      | None => Raise KeyError
      end
  | _ => Raise TypeError
  end.

(** [v[i]] for an index [i >= 0]. *)
Definition subscript_int (v : value) (i : nat) : result value :=
  match v with
  | VList l =>
      match nth_error l i with
      | Some x => Val x
      | None => Raise IndexError
      end
  | VStr s =>
      match String.get i s with
      | Some c => Val (VStr (String c EmptyString))
      | None => Raise IndexError
      end
  | VDict _ => Raise KeyError
  | _ => Raise TypeError
  end.

(** What [for x in v] runs over. *)
Definition iterate (v : value) : result (list value) :=
  match v with
  | VList l => Val l
  | VDict d => Val (map (fun kv => VStr (fst kv)) d)
  | VStr s =>
      Val (map (fun c => VStr (String c EmptyString)) (list_ascii_of_string s))
  | _ => Raise TypeError
  end.

Definition print (e : event) : Py unit :=
  fun st => (Val tt, {| tty := tty st; stdin := stdin st;
                        out := out st ++ [e]; msg_file := msg_file st |}).

Definition get_ai_suggestion (w : world) : Py value :=
  if negb (has_openai w) then ret VNone
  else
    try_except
      (match ai_completion w with
       | CallRaises => raise APIError
       | NotJson => raise JSONDecodeError
       | Json (VDict d) =>
           ret (match dict_get d "suggestions" with
                | Some v => v
                | None => VList []
                end)
       | Json _ => raise AttributeError
       end)
      (fun e => print (EAIFailed e) ;;; ret VNone).

(** The listing loop of [display_suggestions], from index [i]. *)
Fixpoint show_suggestions (i : nat) (items : list value) : Py unit :=
  match items with
  | [] => ret tt
  | suggestion :: rest =>
      print (EIndex i) ;;;
      m <- lift (subscript_str suggestion "message") ;;
      print (EField "Message" m) ;;;
      t <- lift (subscript_str suggestion "type") ;;
      print (EField "Type" t) ;;;
      sc <- lift (subscript_str suggestion "scope") ;;
      print (EField "Scope" sc) ;;;
      e <- lift (subscript_str suggestion "explanation") ;;
      print (EField "Explanation" e) ;;;
      print ERule ;;;
      show_suggestions (S i) rest
  end.

(** [int(choice)] on the three strings that reach it. *)
Definition int (choice : string) : nat :=
  if String.eqb choice "1" then 1
  else if String.eqb choice "2" then 2
  else if String.eqb choice "3" then 3
  else 0.

(** One turn of the [while True] loop after [input]: [Some v] returns [v],
    [None] goes round again. *)
Definition select (suggestions : value) (choice : string) : Py (option value) :=
  if String.eqb choice "" then ret (Some VNone)
  else if existsb (String.eqb choice) ["1"; "2"; "3"] then
    suggestion <- lift (subscript_int suggestions (int choice - 1)) ;;
    m <- lift (subscript_str suggestion "message") ;;
    ret (Some m)
  else print EHelp ;;; ret None.

(** The [while True] loop. The recursion is on the lines of standard input
    not read yet: [lines] is [stdin] of the state at every call. *)
Fixpoint choice_loop (suggestions : value) (lines : list string) : Py value :=
  print EChoose ;;;
  line <- input ;;
  match lines with
  | [] => raise EOFError
  | _ :: rest =>
      r <- select suggestions (strip line) ;;
      match r with
      | Some v => ret v
      | None => choice_loop suggestions rest
      end
  end.

Definition display_suggestions (suggestions : value) : Py value :=
  print EBanner ;;;
  items <- lift (iterate suggestions) ;;
  show_suggestions 1 items ;;;
  fun st => choice_loop suggestions (stdin st) st.

(** ** The run *)

(** [prompt_user]: anything but [n] is a yes, and so is a terminal that
    cannot be opened or has reached its end. *)
Definition prompt_user : Py bool :=
  fun st =>
    match tty st with
    | None => (Val true, st)
    | Some [] => (Val true, st)
    | Some (line :: rest) =>
        let response := lower (strip line) in
        (Val (String.eqb response "" || negb (String.eqb response "n")),
         {| tty := Some rest; stdin := stdin st;
            out := out st; msg_file := msg_file st |})
    end.

(** The AI branch of [main]; [true] when it wrote the message and [main]
    returns. *)
Definition ai_flow (w : world) : Py bool :=
  wants_ai <- prompt_user ;;
  if wants_ai : bool then
    suggestions <- get_ai_suggestion w ;;
    if truthy suggestions then
      chosen_message <- display_suggestions suggestions ;;
      if truthy chosen_message then
        write_msg_file chosen_message ;;; ret true
      else ret false
    else ret false
  else ret false.

(** The fallback of [main]. *)
Definition fallback_flow (w : world) (original_msg : string)
  (packages : list package) : Py unit :=
  new_msg <- lift (fallback_message w original_msg packages) ;;
  use <- prompt_user ;;
  if use : bool then write_msg_file (VStr new_msg) else ret tt.

(** The body of the [try] of [main]. [Config()] and [generate_ai_prompt]
    are taken to succeed: the first is outside the core, the second
    catches the failure of its own query and its text only reaches the
    completion service. *)
Definition main_body (w : world) : Py unit :=
  contents <- read_msg_file w ;;
  let original_msg := strip contents in
  if startswith "Merge" original_msg then sys_exit 0
  else
    packages <- lift (get_changed_packages w) ;;
    if Nat.eqb (length packages) 0 then sys_exit 0
    else
      finished <- ai_flow w ;;
      if finished : bool then ret tt
      else fallback_flow w original_msg packages.

(** The exit status of the process and the state it leaves. *)
Definition main (w : world) (st : state) : Z * state :=
  match try_except (main_body w)
          (fun e => print (EError e) ;;; sys_exit 1) st with
  | (Val _, st') => (0%Z, st')
  | (SysExit code, st') => (code, st')
  | (Raise _, st') => (1%Z, st')
  end.

(** ** Vocabulary of the properties *)

(** Whether a file matches one of the five categories. *)
Definition matches_category (file : string) : bool :=
  any_in test_markers (lower file)
  || any_in docs_markers (lower file)
  || any_in style_markers (lower file)
  || any_in chore_markers (lower (path_name file))
  || any_in fix_markers (lower file).

(** The text before the first [c] of [s] (all of [s] without one). *)
Fixpoint text_before (c : ascii) (s : string) : string :=
  match s with
  | EmptyString => EmptyString
  | String a t => if Ascii.eqb a c then EmptyString else String a (text_before c t)
  end.

(** The text after the first [c] of [s] (empty without one). *)
Fixpoint text_after (c : ascii) (s : string) : string :=
  match s with
  | EmptyString => EmptyString
  | String a t => if Ascii.eqb a c then t else text_after c t
  end.

(** The type a message prefix declares, in the words of the amended
    claim C7: the text before the first opening parenthesis when the
    prefix has an opening and a closing parenthesis, wherever they stand,
    else the whole prefix. *)
Definition declared_type (prefix : string) : string :=
  if has_char "(" prefix && has_char ")" prefix
  then text_before "(" prefix else prefix.

(** Whether a prefix contains a parenthesized scope, in the words of the
    claim C7 as it was written: an opening parenthesis with a closing one
    after it. *)
Definition parenthesized (prefix : string) : bool :=
  has_char "(" prefix && has_char ")" (text_after "(" prefix).

(** The type of the claim C7 as it was written: the text before the
    parenthesis when the prefix contains a parenthesized scope, otherwise
    the whole prefix. *)
Definition claimed_type (prefix : string) : string :=
  if parenthesized prefix then text_before "(" prefix else prefix.

(** The key the collector files a path under: [packages/] and the second
    segment of a path that starts with [packages/], else [root]. *)
Definition package_key (file : string) : string :=
  if startswith "packages/" file
  then "packages/" +:+ text_before "/" (text_after "/" file)
  else "root".

(** Every file of every entry of the collector's dictionary sits under
    its own key. *)
Definition keyed (d : list (string * list string)) : Prop :=
  forall key fs file, (key, fs) ∈ d -> file ∈ fs -> key = package_key file.

(** A well-formed suggestion of the response contract. *)
Record suggestion : Type := {
  sg_message : string;
  sg_explanation : string;
  sg_type : string;
  sg_scope : string;
  sg_description : string
}.

(** The parsed JSON object of a suggestion. *)
Definition suggestion_value (s : suggestion) : value :=
  VDict [("message", VStr (sg_message s));
         ("explanation", VStr (sg_explanation s));
         ("type", VStr (sg_type s));
         ("scope", VStr (sg_scope s));
         ("description", VStr (sg_description s))].

Definition suggestions_value (ss : list suggestion) : value :=
  VList (map suggestion_value ss).

(** The state after reading standard input down to [ins] and printing
    [evs]. *)
Definition with_io (st : state) (ins : list string) (evs : list event) : state :=
  {| tty := tty st; stdin := ins; out := out st ++ evs; msg_file := msg_file st |}.

(** What the listing loop prints for well-formed suggestions, from index
    [i]. *)
Fixpoint listing (i : nat) (ss : list suggestion) : list event :=
  match ss with
  | [] => []
  | s :: r =>
      [EIndex i; EField "Message" (VStr (sg_message s));
       EField "Type" (VStr (sg_type s)); EField "Scope" (VStr (sg_scope s));
       EField "Explanation" (VStr (sg_explanation s)); ERule]
      ++ listing (S i) r
  end.

(** Whether the AI step fails or answers without a [suggestions] entry:
    no client library, an exception in the call, a content that is not
    JSON, a JSON value that is not an object, an object without the key. *)
Definition ai_step_fails (w : world) : bool :=
  negb (has_openai w)
  || match ai_completion w with
     | CallRaises | NotJson => true
     | Json (VDict d) =>
         match dict_get d "suggestions" with
         | Some _ => false
         | None => true
         end
     | Json _ => true
     end.

(** ** The configuration handler *)

Module Config.

(** [DEFAULT_CONFIG] *)
Definition DEFAULT_CONFIG : gmap string value :=
  <["auto_mode" := VBool false]>
  (<["use_ai" := VBool false]>
  (<["azure_endpoint" := VStr "https://consensys-ai.openai.azure.com/"]>
  (<["azure_deployment" := VStr "gpt-4o"]>
  (<["azure_api_version" := VStr "2024-02-15-preview"]>
  (<["debug" := VBool false]> ∅))))).

(** [d.update(other)] for two dictionaries. *)
Definition update (d other : gmap string value) : gmap string value :=
  other ∪ d.

(** [lambda x: x.lower() in ('1', 'true', 'yes')] *)
Definition flag (x : string) : value :=
  VBool (existsb (String.eqb (lower x)) ["1"; "true"; "yes"]).

(** [env_mappings]: variable, configuration key and transformation. *)
Definition env_mappings : list (string * (string * (string -> value))) :=
  [("GITGUARD_AUTO", ("auto_mode", flag));
   ("GITGUARD_USE_AI", ("use_ai", flag));
   ("AZURE_OPENAI_ENDPOINT", ("azure_endpoint", VStr));
   ("AZURE_OPENAI_DEPLOYMENT", ("azure_deployment", VStr));
   ("AZURE_OPENAI_API_VERSION", ("azure_api_version", VStr));
   ("GITGUARD_DEBUG", ("debug", flag))].

(** Body of the loop over [env_mappings]. *)
Definition apply_env (environ : gmap string string)
  (config : gmap string value)
  (mapping : string * (string * (string -> value))) : gmap string value :=
  let '(env_var, (config_key, transform)) := mapping in
  match environ !! env_var with
  | Some v => <[config_key := transform v]> config
  | None => config
  end.

(** [Config()]: [global_config] and [local_config] are what
    [_load_json_file] returns for the two files, the empty dictionary for a
    file that is missing, unreadable or not JSON (and for the local one
    when the repository root is not found). A file that holds JSON other
    than an object is outside the model. *)
Definition _load_configurations (global_config local_config : gmap string value)
  (environ : gmap string string) : gmap string value :=
  foldl (apply_env environ)
        (update (update DEFAULT_CONFIG global_config) local_config)
        env_mappings.

(** [config.get(key, default)] *)
Definition get (config : gmap string value) (key : string) (default : value)
  : value :=
  match config !! key with
  | Some v => v
  | None => default
  end.

(** The value the environment sets for a configuration key, if any. *)
Fixpoint env_override (environ : gmap string string)
  (mappings : list (string * (string * (string -> value)))) (key : string)
  : option value :=
  match mappings with
  | [] => None
  | (env_var, (config_key, transform)) :: rest =>
      match env_override environ rest key with
      | Some v => Some v
      | None =>
          if String.eqb config_key key
          then option_map transform (environ !! env_var)
          else None
      end
  end.

End Config.

(** ** The manifest lookup *)

(** The [package.json] of a package directory: absent, unreadable or not
    JSON, or parsed. *)
Inductive manifest : Type :=
| NoManifest
| BrokenManifest
| Manifest (v : value).

(** [get_package_json_name]: the bare [except] also catches the
    [AttributeError] of a manifest that is not an object. *)
Definition get_package_json_name (m : manifest) : value :=
  match m with
  | Manifest (VDict d) =>
      match dict_get d "name" with
      | Some v => v
      | None => VNone
      end
  | _ => VNone
  end.

(** ** More vocabulary *)

(** The elements of a list in the order of their first occurrence. *)
Fixpoint first_occurrences (l : list string) : list string :=
  match l with
  | [] => []
  | x :: r =>
      x :: List.filter (fun y => negb (String.eqb y x)) (first_occurrences r)
  end.

(** The staged paths the collector keeps. *)
Definition nonempty_paths (changed_files : list string) : list string :=
  List.filter (fun f => negb (String.eqb f "")) changed_files.

(** The files of a list filed under a key. *)
Definition files_under (key : string) (l : list string) : list string :=
  List.filter (fun f => String.eqb (package_key f) key) l.

(** Whether the listing loop can show a value: an object with the four
    fields it prints. *)
Definition displayable (v : value) : bool :=
  match v with
  | VDict d =>
      match dict_get d "message", dict_get d "type",
            dict_get d "scope", dict_get d "explanation" with
      | Some _, Some _, Some _, Some _ => true
      | _, _, _, _ => false
      end
  | _ => false
  end.

(** Whether the selector rejects a line and prompts again. *)
Definition rejected (line : string) : bool :=
  negb (String.eqb (strip line) "")
  && negb (existsb (String.eqb (strip line)) ["1"; "2"; "3"]).

(** A step that only adds events other than the handler's report to the
    output and exits, if at all, with status 0. *)
Definition quiet {A : Type} (m : Py A) : Prop :=
  forall st, exists evs,
    out (snd (m st)) = out st ++ evs
    /\ (forall e, EError e ∉ evs)
    /\ (forall code, fst (m st) = SysExit code -> code = 0%Z).

(** The six labels of the classifier. *)
Definition all_labels : list string :=
  ["test"; "docs"; "style"; "chore"; "fix"; "feat"].


(** ** Sample data *)

Definition sample_world (staged_output : option string) (c : completion) : world :=
  {| staged := staged_output;
     package_json_name := fun _ => VNone;
     set_iter := elements;
     has_openai := true;
     ai_completion := c;
     why_unreadable := CannotOpen |}.

Definition sample_state (answers lines : list string) (contents : string) : state :=
  {| tty := Some answers; stdin := lines; out := []; msg_file := Some contents |}.

Definition sample_package (n : string) (labels : gset string) : package :=
  {| name := n; scope := n; files := []; types := labels |}.

Definition sample_suggestion (m : string) : suggestion :=
  {| sg_message := m; sg_explanation := "why"; sg_type := "feat";
     sg_scope := "core"; sg_description := "what" |}.

(** * Properties *)

(** ** The classifier *)

Section Classifier.

Implicit Types (file : string) (files : list string) (types : gset string).

Lemma file_label_None file :
  file_label file = None <-> matches_category file = false.
Proof.
  unfold file_label, matches_category.
  destruct (any_in test_markers _), (any_in docs_markers _),
    (any_in style_markers _), (any_in chore_markers _),
    (any_in fix_markers _); simpl; split; congruence.
Qed.

Lemma file_label_not_feat file label :
  file_label file = Some label -> label <> "feat".
Proof.
  unfold file_label.
  repeat match goal with
         | |- context [if ?b then _ else _] => destruct b
         end; intros [= <-]; discriminate.
Qed.

Lemma elem_of_types_loop files types x :
  x ∈ foldl add_file_type types files <->
  x ∈ types \/ exists file, file ∈ files /\ file_label file = Some x.
Proof.
  revert types. induction files as [|f fs IH]; intros types; simpl.
  - split; [auto|]. intros [?|(g & Hg & _)]; [done|]. by apply elem_of_nil in Hg.
  - rewrite IH. unfold add_file_type. split.
    + intros [Hx|(g & Hg & Hl)].
      * destruct (file_label f) as [l|] eqn:E; [|by left].
        apply elem_of_union in Hx as [Hx|Hx]; [|by left].
        apply elem_of_singleton in Hx as ->.
        right. exists f. split; [left|done].
      * right. exists g. split; [by right|done].
    + intros [Hx|(g & Hg & Hl)].
      * left. destruct (file_label f); [|done].
        apply elem_of_union. by right.
      * apply elem_of_cons in Hg as [->|Hg].
        -- left. rewrite Hl. apply elem_of_union. left. by apply elem_of_singleton.
        -- right. by exists g.
Qed.

Lemma detect_change_types_loop files :
  detect_change_types files =
    if decide (foldl add_file_type ∅ files = ∅) then {["feat"]}
    else foldl add_file_type ∅ files.
Proof.
  unfold detect_change_types. case_decide as E; [|done].
  rewrite E. apply leibniz_equiv. set_solver.
Qed.

Lemma types_loop_empty files :
  foldl add_file_type ∅ files = ∅ <->
  forall file, file ∈ files -> file_label file = None.
Proof.
  split.
  - intros E f Hf. destruct (file_label f) as [l|] eqn:El; [|done].
    assert (l ∈ foldl add_file_type ∅ files) as Hl
      by (apply elem_of_types_loop; right; by exists f).
    rewrite E in Hl. by apply not_elem_of_empty in Hl.
  - intros H. apply leibniz_equiv, elem_of_equiv_empty. intros x Hx.
    apply elem_of_types_loop in Hx as [Hx|(f & Hf & Hl)].
    + by apply not_elem_of_empty in Hx.
    + rewrite (H f Hf) in Hl. discriminate.
Qed.

Lemma detect_change_types_nonempty files : detect_change_types files <> ∅.
Proof.
  rewrite detect_change_types_loop. case_decide as E; [|done].
  intros H. assert ("feat" ∈ ({["feat"]} : gset string)) as Hf by set_solver.
  rewrite H in Hf. by apply not_elem_of_empty in Hf.
Qed.

End Classifier.

(** C4. A file whose lower-cased path holds both a test marker and a fix
    keyword gets the label [test] from the classifier and never [fix]: its
    label is [test], [test] is in the result of every file list that
    contains it, and [fix] is there only if another file brings it. *)
Theorem test_marker_beats_fix_keyword (file : string) :
  any_in test_markers (lower file) = true ->
  any_in fix_markers (lower file) = true ->
  file_label file = Some "test"
  /\ (forall types, add_file_type types file = {["test"]} ∪ types)
  /\ detect_change_types [file] = {["test"]}
  /\ (forall files, file ∈ files -> "test" ∈ detect_change_types files)
  /\ (forall files, "fix" ∈ detect_change_types files ->
        exists other, other ∈ files /\ other <> file
                      /\ file_label other = Some "fix").
Proof.
  intros Htest _.
  assert (file_label file = Some "test") as Hlabel
    by (unfold file_label; by rewrite Htest).
  assert (forall files, file ∈ files -> foldl add_file_type ∅ files <> ∅) as Hne.
  { intros files Hin E. rewrite types_loop_empty in E.
    specialize (E file Hin). congruence. }
  split; [done|]. split; [|split; [|split]].
  - intros types. unfold add_file_type. by rewrite Hlabel.
  - unfold detect_change_types. simpl. unfold add_file_type. rewrite Hlabel.
    case_decide as E; [|apply leibniz_equiv; set_solver].
    exfalso. assert ("test" ∈ ({["test"]} ∪ ∅ : gset string)) as H by set_solver.
    rewrite E in H. by apply not_elem_of_empty in H.
  - intros files Hin. rewrite detect_change_types_loop.
    case_decide as E; [by apply Hne in E|].
    apply elem_of_types_loop. right. by exists file.
  - intros files Hfix. rewrite detect_change_types_loop in Hfix.
    case_decide as E.
    + apply elem_of_singleton in Hfix. discriminate.
    + apply elem_of_types_loop in Hfix as [Hfix|(g & Hg & Hl)].
      * by apply not_elem_of_empty in Hfix.
      * exists g. split; [done|]. split; [|done]. intros ->. congruence.
Qed.

Lemma test_marker_beats_fix_keyword_witness :
  file_label "src/feature/fix.test.ts" = Some "test"
  /\ detect_change_types ["src/feature/fix.test.ts"] = {["test"]}.
Proof.
  pose proof (test_marker_beats_fix_keyword "src/feature/fix.test.ts"
                eq_refl eq_refl) as (H1 & _ & H3 & _).
  exact (conj H1 H3).
Defined.

(** C5. The classifier never returns the empty set, and for a file list
    none of whose files matches a category it returns exactly [{feat}]. *)
Theorem detect_change_types_nonempty_default (files : list string) :
  detect_change_types files <> ∅
  /\ ((forall file, file ∈ files -> matches_category file = false) ->
      detect_change_types files = {["feat"]}).
Proof.
  split; [apply detect_change_types_nonempty|].
  rewrite detect_change_types_loop.
  - intros Hnone. rewrite decide_True; [done|].
    apply types_loop_empty. intros f Hf. apply file_label_None. by apply Hnone.
Qed.

Lemma detect_change_types_nonempty_default_witness :
  detect_change_types ["src/index.ts"; "lib/util.py"] = {["feat"]}.
Proof.
  apply (detect_change_types_nonempty_default ["src/index.ts"; "lib/util.py"]).
  intros file Hin.
  apply elem_of_cons in Hin as [->|Hin]; [reflexivity|].
  apply elem_of_cons in Hin as [->|Hin]; [reflexivity|].
  by apply elem_of_nil in Hin.
Defined.

(** C10. [feat] is in the classifier's result only when the result is the
    singleton [{feat}]; as soon as one file matches a category, [feat] is
    not in the result. *)
Theorem feat_only_as_singleton (files : list string) :
  ("feat" ∈ detect_change_types files -> detect_change_types files = {["feat"]})
  /\ ((exists file, file ∈ files /\ matches_category file = true) ->
      "feat" ∉ detect_change_types files).
Proof.
  assert ("feat" ∉ foldl add_file_type ∅ files) as Hnot.
  { intros H. apply elem_of_types_loop in H as [H|(f & _ & Hl)].
    - by apply not_elem_of_empty in H.
    - by apply file_label_not_feat in Hl. }
  rewrite detect_change_types_loop. split.
  - case_decide as E; [done|]. intros H. by apply Hnot in H.
  - intros (f & Hf & Hm). case_decide as E; [|done].
    rewrite types_loop_empty in E. specialize (E f Hf).
    apply file_label_None in E. congruence.
Qed.

Lemma feat_only_as_singleton_witness :
  "feat" ∉ detect_change_types ["src/index.ts"; "README.md"].
Proof.
  apply (feat_only_as_singleton ["src/index.ts"; "README.md"]).
  exists "README.md". split; [|reflexivity].
  apply elem_of_cons. right. apply elem_of_cons. by left.
Defined.

(** ** Strings *)

Section Strings.

Implicit Types (c : ascii) (s t : string).

Lemma append_assoc s t u : (s +:+ t) +:+ u = s +:+ (t +:+ u).
Proof. induction s as [|a s IH]; simpl; [done|]. by rewrite IH. Qed.

Lemma has_char_append c s t :
  has_char c (s +:+ t) = has_char c s || has_char c t.
Proof.
  induction s as [|a s IH]; simpl; [done|].
  rewrite IH. by rewrite orb_assoc.
Qed.

Lemma split1_has_char c s :
  has_char c s = true -> split1 c s = [text_before c s; text_after c s].
Proof.
  induction s as [|a s IH]; simpl; [discriminate|].
  destruct (Ascii.eqb a c); simpl; [done|].
  intros H. by rewrite (IH H).
Qed.

Lemma hd_split c s : hd "" (split c s) = text_before c s.
Proof.
  induction s as [|a s IH]; simpl; [done|].
  destruct (Ascii.eqb a c); simpl; [done|].
  destruct (split c s) as [|h r]; simpl in *; by rewrite <- IH.
Qed.

Lemma split_unfold c s :
  split c s =
    text_before c s :: (if has_char c s then split c (text_after c s) else []).
Proof.
  induction s as [|a s IH]; simpl; [done|].
  destruct (Ascii.eqb a c); simpl; [done|].
  by rewrite IH.
Qed.

Lemma text_before_append c s t :
  has_char c s = false -> text_before c (s +:+ String c t) = s.
Proof.
  induction s as [|a s IH]; simpl.
  - by rewrite Ascii.eqb_refl.
  - intros H. apply orb_false_iff in H as [Ha Hs].
    rewrite Ha. by rewrite (IH Hs).
Qed.

Lemma text_after_append c s t :
  has_char c s = false -> text_after c (s +:+ String c t) = t.
Proof.
  induction s as [|a s IH]; simpl.
  - by rewrite Ascii.eqb_refl.
  - intros H. apply orb_false_iff in H as [Ha Hs].
    rewrite Ha. by apply IH.
Qed.

Lemma has_char_text_after c c' s :
  has_char c (text_after c' s) = true -> has_char c s = true.
Proof.
  induction s as [|a s IH]; simpl; [done|].
  destruct (Ascii.eqb a c'); intros H.
  - by rewrite H, orb_true_r.
  - by rewrite (IH H), orb_true_r.
Qed.

Lemma has_char_here c s t : has_char c (s +:+ String c t) = true.
Proof.
  rewrite has_char_append. simpl. rewrite Ascii.eqb_refl.
  by rewrite orb_true_r.
Qed.

Lemma startswith_append s t : startswith s (s +:+ t) = true.
Proof.
  induction s as [|a s IH]; simpl; [done|]. by rewrite Ascii.eqb_refl.
Qed.

Lemma startswith_has_char c s t :
  has_char c s = true -> startswith s t = true -> has_char c t = true.
Proof.
  revert t. induction s as [|a s IH]; intros [|b t]; simpl; try discriminate.
  destruct (Ascii.eqb a b) eqn:E; [|discriminate].
  apply Ascii.eqb_eq in E as ->. intros H Hs.
  destruct (Ascii.eqb b c); simpl in *; [done|]. by apply IH.
Qed.

End Strings.

(** ** The formatter *)

Section Formatter.

Variable w : world.
Implicit Types (pkg : package) (msg : string).

(** The colon branch, in terms of the text around the first colon. *)
Lemma format_commit_message_colon msg pkg commit_type :
  has_char ":" msg = true ->
  format_commit_message w msg pkg commit_type =
    Val (declared_type (text_before ":" msg) +:+ "(" +:+ scope pkg +:+ "): "
         +:+ strip (text_after ":" msg)).
Proof.
  intros H. unfold format_commit_message, declared_type.
  rewrite H, (split1_has_char _ _ H). by rewrite hd_split.
Qed.

Lemma extract_type_description_colon msg :
  has_char ":" msg = true ->
  extract_type_description msg =
    Some (declared_type (text_before ":" msg), strip (text_after ":" msg)).
Proof.
  intros H. unfold extract_type_description, declared_type.
  rewrite H, (split1_has_char _ _ H). by rewrite hd_split.
Qed.

(** The branch without a colon, for a type the caller supplies. *)
Lemma format_commit_message_plain msg pkg t :
  has_char ":" msg = false -> t <> "" ->
  format_commit_message w msg pkg (Some t) =
    Val (t +:+ "(" +:+ scope pkg +:+ "): " +:+ msg).
Proof.
  intros H Ht. unfold format_commit_message. rewrite H.
  destruct (String.eqb t "") eqn:E; [|done].
  by apply String.eqb_eq in E.
Qed.

(** The declared type of [type(scope)]. *)
Lemma declared_type_scoped ty sc :
  has_char "(" ty = false ->
  declared_type (ty +:+ "(" +:+ sc +:+ ")") = ty.
Proof.
  intros H. unfold declared_type. simpl.
  rewrite (has_char_here "(" ty (sc +:+ ")")).
  rewrite has_char_append. simpl. rewrite (has_char_here ")" sc "").
  rewrite orb_true_r. simpl. by apply text_before_append.
Qed.

End Formatter.

Section FormatterShapes.

Implicit Types (ty sc desc : string).

Lemma append_nil_r s : s +:+ "" = s.
Proof. induction s as [|a s IH]; simpl; [done|]. by rewrite IH. Qed.

Lemma strip_space s : strip (String " " s) = strip s.
Proof. reflexivity. Qed.

(** [type(scope): description], cut at its colon. *)
Lemma scoped_shape ty sc desc :
  ty +:+ "(" +:+ sc +:+ "): " +:+ desc =
  (ty +:+ "(" +:+ sc +:+ ")") +:+ String ":" (String " " desc).
Proof. rewrite !append_assoc. simpl. rewrite ?append_assoc. by simpl. Qed.

Lemma scoped_prefix_no_colon ty sc :
  has_char ":" ty = false -> has_char ":" sc = false ->
  has_char ":" (ty +:+ "(" +:+ sc +:+ ")") = false.
Proof.
  intros Hty Hsc. rewrite has_char_append, Hty. simpl.
  rewrite has_char_append, Hsc. by simpl.
Qed.

(** What the formatter's own reading finds in [type(scope): description]. *)
Lemma extract_scoped ty sc desc :
  has_char ":" ty = false -> has_char "(" ty = false ->
  has_char ":" sc = false -> strip desc = desc ->
  extract_type_description (ty +:+ "(" +:+ sc +:+ "): " +:+ desc)
  = Some (ty, desc).
Proof.
  intros Hty Hp Hsc Hd. rewrite scoped_shape.
  pose proof (scoped_prefix_no_colon ty sc Hty Hsc) as Hpre.
  rewrite extract_type_description_colon by apply has_char_here.
  rewrite (text_before_append _ _ _ Hpre), (text_after_append _ _ _ Hpre).
  by rewrite (declared_type_scoped ty sc Hp), strip_space, Hd.
Qed.

Lemma join_lines (f : package -> string) (l : list package) :
  l <> [] ->
  nl +:+ join nl (map f l) = fold_right (fun p acc => nl +:+ f p +:+ acc) "" l.
Proof.
  induction l as [|x [|y r] IH]; [done| |]; intros _.
  - simpl. by rewrite append_nil_r.
  - change (join nl (map f (x :: y :: r)))
      with (f x +:+ nl +:+ join nl (map f (y :: r))).
    change (fold_right (fun p acc => nl +:+ f p +:+ acc) "" (x :: y :: r))
      with (nl +:+ f x +:+ fold_right (fun p acc => nl +:+ f p +:+ acc) "" (y :: r)).
    by rewrite <- IH.
Qed.

End FormatterShapes.

(** C7, counterexample. A closing parenthesis before the opening one is
    no parenthesized scope, so the claim takes the whole prefix [)fix(] as
    the type; the formatter cuts at the opening parenthesis and takes
    [)fix]. *)
Lemma unordered_parentheses_cut_the_type :
  has_char ":" ")fix(: typo" = true
  /\ parenthesized (text_before ":" ")fix(: typo") = false
  /\ claimed_type (text_before ":" ")fix(: typo") = ")fix("
  /\ format_commit_message (sample_world None CallRaises) ")fix(: typo"
       (sample_package "auth" {["fix"]}) None
     = Val ")fix(auth): typo"
  /\ format_commit_message (sample_world None CallRaises) ")fix(: typo"
       (sample_package "auth" {["fix"]}) None
     <> Val (claimed_type (text_before ":" ")fix(: typo") +:+ "("
             +:+ scope (sample_package "auth" {["fix"]}) +:+ "): "
             +:+ strip (text_after ":" ")fix(: typo")).
Proof. repeat split; try reflexivity. discriminate. Qed.

(** C7, amended. For a message with a colon the formatter takes the type
    from the text before the first colon: the text before the first
    opening parenthesis when that prefix has an opening and a closing
    parenthesis, wherever they stand, else the whole prefix. It takes the
    description from the stripped text after the first colon, whatever
    type the caller passes, and returns
    [type(scope of the package): description]. The type is the one of the
    claim as it was written whenever the prefix has a parenthesized scope
    or lacks one of the two parentheses. *)
Theorem format_keeps_declared_type (w : world) (original_msg : string)
  (pkg : package) (default_type : option string) :
  has_char ":" original_msg = true ->
  format_commit_message w original_msg pkg default_type =
    Val (declared_type (text_before ":" original_msg) +:+ "("
         +:+ scope pkg +:+ "): " +:+ strip (text_after ":" original_msg))
  /\ (forall prefix, has_char "(" prefix = true -> has_char ")" prefix = true ->
        declared_type prefix = text_before "(" prefix)
  /\ (forall prefix, has_char "(" prefix = false \/ has_char ")" prefix = false ->
        declared_type prefix = prefix)
  /\ (forall prefix,
        parenthesized prefix = true \/ has_char "(" prefix = false
        \/ has_char ")" prefix = false ->
        declared_type prefix = claimed_type prefix)
  /\ (forall ty sc, has_char "(" ty = false ->
        declared_type (ty +:+ "(" +:+ sc +:+ ")") = ty).
Proof.
  intros H. split; [by apply format_commit_message_colon|].
  assert (forall prefix, has_char "(" prefix = false \/ has_char ")" prefix = false ->
            declared_type prefix = prefix) as Hwhole.
  { intros prefix [Hp|Hp]; unfold declared_type; rewrite Hp; [done|].
    by rewrite andb_false_r. }
  split; [|split; [exact Hwhole|split; [|apply declared_type_scoped]]].
  - intros prefix Ho Hc. unfold declared_type. by rewrite Ho, Hc.
  - intros prefix [Hp|Hp].
    + unfold parenthesized in Hp. apply andb_true_iff in Hp as [Ho Hc].
      unfold claimed_type, parenthesized, declared_type.
      by rewrite Ho, Hc, (has_char_text_after _ _ _ Hc).
    + rewrite (Hwhole prefix Hp). unfold claimed_type, parenthesized.
      destruct Hp as [Hp|Hp]; [by rewrite Hp|].
      destruct (has_char ")" (text_after "(" prefix)) eqn:E;
        [|by rewrite andb_false_r].
      by rewrite (has_char_text_after _ _ _ E) in Hp.
Qed.

Lemma format_keeps_declared_type_witness :
  format_commit_message (sample_world None CallRaises) "fix(api):  update login "
    (sample_package "auth" {["docs"]}) (Some "chore")
  = Val "fix(auth): update login".
Proof.
  exact (proj1 (format_keeps_declared_type (sample_world None CallRaises)
                  "fix(api):  update login " (sample_package "auth" {["docs"]})
                  (Some "chore") eq_refl)).
Defined.

(** C9, counterexample. A colon inside the scope of the message: the
    formatter cuts at it, and the description read back is not the one
    of the message. *)
Lemma roundtrip_fails_on_colon_in_scope :
  has_char ":" "feat" = false /\ strip "d" = "d"
  /\ format_commit_message (sample_world None CallRaises)
       ("feat" +:+ "(" +:+ "a:b" +:+ "): " +:+ "d")
       (sample_package "core" {["feat"]}) None
     = Val "feat(a(core): b): d"
  /\ extract_type_description "feat(a(core): b): d" = Some ("feat", "b): d")
  /\ extract_type_description "feat(a(core): b): d" <> Some ("feat", "d").
Proof. repeat split; try reflexivity. discriminate. Qed.

(** C9, amended. For a message [type(scope): description] whose type has
    neither a colon nor an opening parenthesis, whose scope has no colon
    and whose description is already stripped, formatted for a package
    whose scope has no colon: the formatter returns
    [type(package scope): description], and reading type and description
    back from it gives the type and the description of the message. *)
Theorem format_extract_roundtrip (w : world) (ty sc desc : string)
  (pkg : package) (default_type : option string) :
  has_char ":" ty = false -> has_char "(" ty = false ->
  has_char ":" sc = false -> has_char ":" (scope pkg) = false ->
  strip desc = desc ->
  extract_type_description (ty +:+ "(" +:+ sc +:+ "): " +:+ desc) = Some (ty, desc)
  /\ exists formatted,
       format_commit_message w (ty +:+ "(" +:+ sc +:+ "): " +:+ desc)
         pkg default_type = Val formatted
       /\ formatted = ty +:+ "(" +:+ scope pkg +:+ "): " +:+ desc
       /\ extract_type_description formatted = Some (ty, desc).
Proof.
  intros Hty Hp Hsc Hpkg Hd. split; [by apply extract_scoped|].
  exists (ty +:+ "(" +:+ scope pkg +:+ "): " +:+ desc).
  split; [|split; [done|by apply extract_scoped]].
  rewrite scoped_shape.
  pose proof (scoped_prefix_no_colon ty sc Hty Hsc) as Hpre.
  rewrite format_commit_message_colon by apply has_char_here.
  rewrite (text_before_append _ _ _ Hpre), (text_after_append _ _ _ Hpre).
  by rewrite (declared_type_scoped ty sc Hp), strip_space, Hd.
Qed.

Lemma format_extract_roundtrip_witness :
  extract_type_description "feat(core): add parser" = Some ("feat", "add parser")
  /\ exists formatted,
       format_commit_message (sample_world None CallRaises)
         "feat(core): add parser" (sample_package "api" {["fix"]}) (Some "fix")
       = Val formatted
       /\ formatted = "feat(api): add parser"
       /\ extract_type_description formatted = Some ("feat", "add parser").
Proof.
  exact (format_extract_roundtrip (sample_world None CallRaises)
           "feat" "core" "add parser" (sample_package "api" {["fix"]})
           (Some "fix") eq_refl eq_refl eq_refl eq_refl eq_refl).
Defined.

(** C8. With more than one package the fallback message is the header
    formatted for the first package, a blank line, [Affected packages:]
    and one [- name] line per package in the collector's order; for
    [core] and [ui], the message [improve build] and the type [chore] it
    is the text of the specification's example. *)
Theorem multi_package_fallback (w : world) (original_msg : string)
  (main_pkg : package) (others : list package) (main_type : string) :
  others <> [] ->
  next_iter w (types main_pkg) = Val main_type ->
  fallback_message w original_msg (main_pkg :: others) =
    (new_msg <-r format_commit_message w original_msg main_pkg (Some main_type) ;;
     Val (new_msg +:+ nl +:+ nl +:+ "Affected packages:"
          +:+ fold_right (fun p acc => nl +:+ ("- " +:+ name p) +:+ acc) ""
                (main_pkg :: others)))
  /\ (original_msg = "improve build" -> main_type = "chore" ->
      scope main_pkg = "core" -> map name (main_pkg :: others) = ["core"; "ui"] ->
      fallback_message w original_msg (main_pkg :: others) =
        Val ("chore(core): improve build" +:+ nl +:+ nl +:+ "Affected packages:"
             +:+ nl +:+ "- core" +:+ nl +:+ "- ui")).
Proof.
  intros Hothers Hnext.
  assert (fallback_message w original_msg (main_pkg :: others) =
    (new_msg <-r format_commit_message w original_msg main_pkg (Some main_type) ;;
     Val (new_msg +:+ nl +:+ nl +:+ "Affected packages:"
          +:+ fold_right (fun p acc => nl +:+ ("- " +:+ name p) +:+ acc) ""
                (main_pkg :: others)))) as Hgen.
  { unfold fallback_message, header.
    destruct others as [|p2 rest]; [done|].
    change (Nat.ltb 1 (length (main_pkg :: p2 :: rest))) with true.
    cbv iota. rewrite Hnext. cbn [rbind].
    destruct (format_commit_message w original_msg main_pkg (Some main_type))
      as [new_msg| |]; cbn [rbind]; [|done|done].
    by rewrite <- (join_lines (fun p => "- " +:+ name p) (main_pkg :: p2 :: rest)). }
  split; [done|].
  intros -> -> Hscope Hnames. rewrite Hgen.
  rewrite format_commit_message_plain by done. cbn [rbind]. rewrite Hscope.
  destruct others as [|p2 [|p3 rest]]; try discriminate.
  injection Hnames as H1 H2. cbn [fold_right]. rewrite H1, H2. reflexivity.
Qed.

Lemma multi_package_fallback_witness :
  fallback_message (sample_world None CallRaises) "improve build"
    [sample_package "core" {["chore"]}; sample_package "ui" {["feat"]}]
  = Val ("chore(core): improve build" +:+ nl +:+ nl +:+ "Affected packages:"
         +:+ nl +:+ "- core" +:+ nl +:+ "- ui").
Proof.
  apply (multi_package_fallback (sample_world None CallRaises) "improve build"
           (sample_package "core" {["chore"]}) [sample_package "ui" {["feat"]}]
           "chore"); [discriminate|vm_compute; reflexivity| | | |]; reflexivity.
Defined.

(** ** The collector *)

Section Collector.

Implicit Types (d : list (string * list string)) (k v file : string).

Lemma dict_append_key_elem d k v key :
  key ∈ map fst (dict_append d k v) <-> key = k \/ key ∈ map fst d.
Proof.
  induction d as [|[k' vs] r IH]; simpl.
  - rewrite list_elem_of_singleton. split; [by left|].
    intros [?|H]; [done|]. by apply elem_of_nil in H.
  - destruct (String.eqb k' k) eqn:E; simpl.
    + apply String.eqb_eq in E as ->. rewrite elem_of_cons. tauto.
    + rewrite !elem_of_cons, IH. tauto.
Qed.

Lemma dict_append_NoDup d k v :
  NoDup (map fst d) -> NoDup (map fst (dict_append d k v)).
Proof.
  induction d as [|[k' vs] r IH]; simpl; intros Hd.
  - apply NoDup_singleton.
  - apply NoDup_cons in Hd as [Hk' Hr].
    destruct (String.eqb k' k) eqn:E; simpl.
    + by apply NoDup_cons.
    + apply NoDup_cons. split; [|by apply IH].
      rewrite dict_append_key_elem. intros [->|?]; [|done].
      by rewrite String.eqb_refl in E.
Qed.

Lemma dict_append_files d k v :
  concat (map snd (dict_append d k v)) ≡ₚ v :: concat (map snd d).
Proof.
  induction d as [|[k' vs] r IH]; simpl; [done|].
  destruct (String.eqb k' k); simpl.
  - rewrite <- app_assoc. simpl. by rewrite <- Permutation_middle.
  - rewrite IH. by rewrite <- Permutation_middle.
Qed.

Lemma dict_append_elem d k v key fs file :
  (key, fs) ∈ dict_append d k v -> file ∈ fs ->
  (key = k /\ file = v) \/ exists fs', (key, fs') ∈ d /\ file ∈ fs'.
Proof.
  induction d as [|[k' vs] r IH]; simpl.
  - intros H Hf. apply list_elem_of_singleton in H as [= -> ->].
    apply list_elem_of_singleton in Hf. by left.
  - destruct (String.eqb k' k) eqn:E.
    + apply String.eqb_eq in E as ->.
      intros H Hf. apply elem_of_cons in H as [[= -> ->]|H].
      * apply elem_of_app in Hf as [Hf|Hf].
        -- right. exists vs. split; [left|done].
        -- apply list_elem_of_singleton in Hf. by left.
      * right. exists fs. split; [by right|done].
    + intros H Hf. apply elem_of_cons in H as [[= -> ->]|H].
      * right. exists vs. split; [left|done].
      * destruct (IH H Hf) as [?|(fs' & ? & ?)]; [by left|].
        right. exists fs'. split; [by right|done].
Qed.

Lemma dict_append_keyed d k v :
  keyed d -> k = package_key v -> keyed (dict_append d k v).
Proof.
  intros Hd -> key fs file H Hf.
  destruct (dict_append_elem _ _ _ _ _ _ H Hf) as [[-> ->]|(fs' & ? & ?)];
    [done|by eapply Hd].
Qed.

(** The guard on the number of parts never fails: a path that starts
    with [packages/] has a second segment. *)
Lemma add_changed_file_key d file :
  add_changed_file d file =
    if String.eqb file "" then d else dict_append d (package_key file) file.
Proof.
  unfold add_changed_file, package_key.
  destruct (String.eqb file ""); [done|].
  destruct (startswith "packages/" file) eqn:E; [|done].
  assert (has_char "/" file = true) as Hs
    by (by apply (startswith_has_char "/" "packages/" file)).
  rewrite (split_unfold "/" file), Hs.
  by rewrite (split_unfold "/" (text_after "/" file)).
Qed.

Lemma group_loop d files :
  NoDup (map fst d) -> keyed d ->
  NoDup (map fst (foldl add_changed_file d files))
  /\ keyed (foldl add_changed_file d files)
  /\ concat (map snd (foldl add_changed_file d files))
     ≡ₚ concat (map snd d) ++ filter (fun f => f <> "") files.
Proof.
  revert d. induction files as [|f fs IH]; intros d Hnd Hk; simpl.
  - by rewrite app_nil_r.
  - rewrite add_changed_file_key.
    destruct (String.eqb f "") eqn:E.
    + apply String.eqb_eq in E as ->.
      rewrite filter_cons_False by (intros H; by apply H). by apply IH.
    + apply String.eqb_neq in E. rewrite filter_cons_True by done.
      destruct (IH (dict_append d (package_key f) f)) as (H1 & H2 & H3);
        [by apply dict_append_NoDup|by apply dict_append_keyed|].
      split; [done|]. split; [done|].
      rewrite H3, dict_append_files. by rewrite <- Permutation_middle.
Qed.

Lemma package_key_in_package X rest :
  has_char "/" X = false ->
  package_key ("packages/" +:+ X +:+ "/" +:+ rest) = "packages/" +:+ X.
Proof.
  intros H. unfold package_key. rewrite startswith_append. simpl.
  by rewrite text_before_append.
Qed.

Lemma package_key_directly_under X :
  has_char "/" X = false ->
  package_key ("packages/" +:+ X) = "packages/" +:+ X.
Proof.
  intros H. unfold package_key. rewrite startswith_append. simpl.
  f_equal. f_equal. f_equal. f_equal. f_equal. f_equal. f_equal. f_equal.
  f_equal. clear -H. induction X as [|a X IH]; simpl in *; [done|].
  apply orb_false_iff in H as [Ha HX]. rewrite Ha. by rewrite IH.
Qed.

Lemma make_package_files w k fs p :
  make_package w (k, fs) = Val p ->
  files p = fs /\ types p = detect_change_types fs.
Proof.
  unfold make_package.
  destruct (String.eqb k "root"); [by intros [= <-]|].
  destruct (truthy (package_json_name w k)); [|by intros [= <-]].
  destruct (package_json_name w k); try done. by intros [= <-].
Qed.

Lemma make_packages_cons w e r pkgs :
  make_packages w (e :: r) = Val pkgs ->
  exists p ps, make_package w e = Val p /\ make_packages w r = Val ps
               /\ pkgs = p :: ps.
Proof.
  cbn [make_packages].
  destruct (make_package w e) as [p| |]; try done.
  destruct (make_packages w r) as [ps| |]; try done.
  intros [= <-]. by exists p, ps.
Qed.

Lemma make_packages_files w entries pkgs :
  make_packages w entries = Val pkgs -> map files pkgs = map snd entries.
Proof.
  revert pkgs. induction entries as [|[k fs] r IH]; intros pkgs.
  - by intros [= <-].
  - intros (p & ps & Hp & Hps & ->)%make_packages_cons.
    apply make_package_files in Hp as [Hf _].
    cbn [map snd]. by rewrite Hf, (IH ps Hps).
Qed.

Lemma make_packages_types w entries pkgs :
  make_packages w entries = Val pkgs ->
  forall p, p ∈ pkgs -> types p <> ∅.
Proof.
  revert pkgs. induction entries as [|[k fs] r IH]; intros pkgs.
  - intros [= <-] p Hp. by apply elem_of_nil in Hp.
  - intros (p0 & ps & Hp0 & Hps & ->)%make_packages_cons p Hp.
    apply elem_of_cons in Hp as [->|Hp]; [|by eapply IH].
    apply make_package_files in Hp0 as [_ ->].
    apply detect_change_types_nonempty.
Qed.

End Collector.

(** C6, counterexample. A file directly under [packages/] has no prefix
    [packages/<X>/], yet the collector files it under a package of its
    own and not under [root]. *)
Lemma file_directly_under_packages_not_root :
  (forall X rest, "packages/README.md" <> "packages/" +:+ X +:+ "/" +:+ rest)
  /\ group_files ["packages/README.md"]
     = [("packages/README.md", ["packages/README.md"])]
  /\ make_packages (sample_world None CallRaises)
       (group_files ["packages/README.md"])
     = Val [{| name := "README.md"; scope := "README.md";
               files := ["packages/README.md"]; types := {["docs"]} |}].
Proof.
  split; [|split; [reflexivity|vm_compute; reflexivity]].
  intros X rest H. simpl in H. injection H as H.
  apply (f_equal (has_char "/")) in H.
  rewrite has_char_here in H. discriminate.
Qed.

(** C6, amended. The collector partitions the non-empty paths: its
    dictionary has one entry per key, the files of its entries are the
    non-empty paths, each once, and every file sits under the key of its
    path. That key is [packages/<X>] for a path [packages/<X>/...], however
    many segments follow, and for a path [packages/<X>] with nothing after
    [X]; it is [root] for every path that does not start with [packages/].
    The packages returned carry the file lists of the dictionary in its
    order. *)
Theorem collector_partition (changed_files : list string) :
  NoDup (map fst (group_files changed_files))
  /\ concat (map snd (group_files changed_files))
     ≡ₚ filter (fun f => f <> "") changed_files
  /\ (forall key fs file,
        (key, fs) ∈ group_files changed_files -> file ∈ fs ->
        key = package_key file)
  /\ (forall X rest, has_char "/" X = false ->
        package_key ("packages/" +:+ X +:+ "/" +:+ rest) = "packages/" +:+ X)
  /\ (forall X, has_char "/" X = false ->
        package_key ("packages/" +:+ X) = "packages/" +:+ X)
  /\ (forall file, startswith "packages/" file = false ->
        package_key file = "root")
  /\ (forall w pkgs, make_packages w (group_files changed_files) = Val pkgs ->
        map files pkgs = map snd (group_files changed_files)).
Proof.
  destruct (group_loop [] changed_files) as (Hnd & Hk & Hp).
  { apply NoDup_nil_2. }
  { intros key fs file H. by apply elem_of_nil in H. }
  split; [done|]. split; [done|]. split; [exact Hk|].
  split; [apply package_key_in_package|].
  split; [apply package_key_directly_under|].
  split; [|intros w pkgs; apply make_packages_files].
  intros file H. unfold package_key. by rewrite H.
Qed.

Lemma collector_partition_witness :
  package_key ("packages/" +:+ "api" +:+ "/" +:+ "src/deep/index.ts")
  = "packages/" +:+ "api"
  /\ package_key "README.md" = "root".
Proof.
  pose proof (collector_partition ["packages/api/src/deep/index.ts"; "README.md"])
    as (_ & _ & _ & Hin & _ & Hroot & _).
  split; [exact (Hin "api" "src/deep/index.ts" eq_refl)|exact (Hroot "README.md" eq_refl)].
Defined.

(** ** The run *)

(** C1, counterexample. Outside a repository the query for the staged
    files fails and the run exits with status 1, not 0. *)
Lemma staged_query_failure_exits_1 :
  main (sample_world None CallRaises) (sample_state ["y"; "y"] [] "add endpoint")
  = (1%Z, with_io (sample_state ["y"; "y"] [] "add endpoint") []
            [EError CalledProcessError]).
Proof. reflexivity. Qed.

(** C1, amended. With a readable message that is not a merge message: a
    failing query for the staged files reaches the handler of [main], which
    reports it and exits with status 1, nothing else changed; a query that
    succeeds with no staged file ends the run early with status 0 and
    nothing changed. *)
Theorem staged_query_failure_is_fatal (w : world) (st : state) (contents : string) :
  msg_file st = Some contents ->
  startswith "Merge" (strip contents) = false ->
  (staged w = None ->
   main w st = (1%Z, with_io st (stdin st) [EError CalledProcessError]))
  /\ (forall output, staged w = Some output -> strip output = "" ->
      main w st = (0%Z, st)).
Proof.
  intros Hfile Hmerge. split.
  - intros Hs.
    unfold main, try_except, main_body, bind, read_msg_file, lift,
      get_changed_packages.
    by rewrite Hfile, Hmerge, Hs.
  - intros output Hs Hempty.
    unfold main, try_except, main_body, bind, read_msg_file, lift,
      get_changed_packages.
    by rewrite Hfile, Hmerge, Hs, Hempty.
Qed.

Lemma staged_query_failure_is_fatal_witness :
  main (sample_world None CallRaises) (sample_state [] [] "add endpoint")
  = (1%Z, with_io (sample_state [] [] "add endpoint") []
            [EError CalledProcessError])
  /\ main (sample_world (Some nl) CallRaises) (sample_state [] [] "add endpoint")
     = (0%Z, sample_state [] [] "add endpoint").
Proof.
  pose proof (staged_query_failure_is_fatal (sample_world None CallRaises)
                (sample_state [] [] "add endpoint") "add endpoint"
                eq_refl eq_refl) as [H1 _].
  pose proof (staged_query_failure_is_fatal (sample_world (Some nl) CallRaises)
                (sample_state [] [] "add endpoint") "add endpoint"
                eq_refl eq_refl) as [_ H2].
  split; [exact (H1 eq_refl)|exact (H2 nl eq_refl eq_refl)].
Defined.

(** ** The selector *)

Section Selector.

Implicit Types (ss : list suggestion) (st : state) (v : value).

Lemma with_io_id st : with_io st (stdin st) [] = st.
Proof. destruct st. unfold with_io. simpl. by rewrite app_nil_r. Qed.

Lemma with_io_twice st i1 e1 i2 e2 :
  with_io (with_io st i1 e1) i2 e2 = with_io st i2 (e1 ++ e2).
Proof. unfold with_io. simpl. by rewrite app_assoc. Qed.

Lemma print_run e st : print e st = (Val tt, with_io st (stdin st) [e]).
Proof. reflexivity. Qed.

Lemma show_suggestions_ok ss i st :
  show_suggestions i (map suggestion_value ss) st
  = (Val tt, with_io st (stdin st) (listing i ss)).
Proof.
  revert i st. induction ss as [|s r IH]; intros i st.
  - simpl. by rewrite with_io_id.
  - cbn [map show_suggestions listing]. unfold bind, print, lift. simpl.
    rewrite IH. unfold with_io. simpl. by rewrite <- !app_assoc.
Qed.

Lemma display_suggestions_listing ss st :
  display_suggestions (suggestions_value ss) st
  = choice_loop (suggestions_value ss) (stdin st)
      (with_io st (stdin st) (EBanner :: listing 1 ss)).
Proof.
  unfold display_suggestions, bind. rewrite print_run.
  unfold lift, suggestions_value, iterate. rewrite show_suggestions_ok.
  by rewrite with_io_twice.
Qed.

(** One turn of the loop on the next line of standard input. *)
Lemma choice_loop_step v line rest st :
  stdin st = line :: rest ->
  choice_loop v (line :: rest) st =
    match select v (strip line) (with_io st rest [EChoose]) with
    | (Val (Some x), st') => (Val x, st')
    | (Val None, st') => choice_loop v rest st'
    | (Raise e, st') => (Raise e, st')
    | (SysExit c, st') => (SysExit c, st')
    end.
Proof.
  intros H. cbn [choice_loop]. unfold bind at 1. rewrite print_run.
  unfold bind at 1. unfold input. simpl. rewrite H.
  unfold bind. unfold with_io.
  by destruct (select v (strip line) _) as [[[x|]| |] st'].
Qed.

Lemma select_empty v st : select v "" st = (Val (Some VNone), st).
Proof. reflexivity. Qed.

Lemma select_index ss choice s st :
  choice ∈ ["1"; "2"; "3"] ->
  nth_error ss (int choice - 1) = Some s ->
  select (suggestions_value ss) choice st
  = (Val (Some (VStr (sg_message s))), st).
Proof.
  intros Hc Hs.
  assert (select (suggestions_value ss) choice st =
          (suggestion <- lift (subscript_int (suggestions_value ss)
                                 (int choice - 1)) ;;
           m <- lift (subscript_str suggestion "message") ;;
           ret (Some m)) st) as ->.
  { repeat (apply elem_of_cons in Hc as [->|Hc]; [reflexivity|]).
    by apply elem_of_nil in Hc. }
  unfold bind, lift, subscript_int, suggestions_value.
  rewrite nth_error_map, Hs. reflexivity.
Qed.

Lemma select_other v choice st :
  choice ∉ [""; "1"; "2"; "3"] ->
  select v choice st = (Val None, with_io st (stdin st) [EHelp]).
Proof.
  intros Hc. unfold select.
  destruct (String.eqb choice "") eqn:E0.
  { apply String.eqb_eq in E0 as ->. exfalso. apply Hc. left. }
  destruct (existsb (String.eqb choice) ["1"; "2"; "3"]) eqn:E; [|done].
  exfalso. apply Hc. simpl in E.
  destruct (String.eqb choice "1") eqn:E1;
    [apply String.eqb_eq in E1 as ->; right; left|].
  destruct (String.eqb choice "2") eqn:E2;
    [apply String.eqb_eq in E2 as ->; right; right; left|].
  destruct (String.eqb choice "3") eqn:E3;
    [apply String.eqb_eq in E3 as ->; right; right; right; left|].
  discriminate.
Qed.

End Selector.

(** C2, counterexample. With one suggestion the input [2] raises
    [IndexError] instead of prompting again, and with four suggestions the
    input [4] does not return the fourth message: the loop prompts again
    and the empty line that follows skips. *)
Lemma selector_only_knows_1_2_3 :
  fst (display_suggestions (suggestions_value [sample_suggestion "feat(core): a"])
         (sample_state [] ["2"] "m"))
  = Raise IndexError
  /\ display_suggestions
       (suggestions_value (map sample_suggestion ["a"; "b"; "c"; "d"]))
       (sample_state [] ["4"; ""] "m")
     = (Val VNone,
        with_io (sample_state [] ["4"; ""] "m") []
          (EBanner :: listing 1 (map sample_suggestion ["a"; "b"; "c"; "d"])
           ++ [EChoose; EHelp; EChoose])).
Proof. split; reflexivity. Qed.

(** C2, amended. For well-formed suggestions and a next line of standard
    input: a line that strips to the empty string returns no selection; a
    line that strips to [1], [2] or [3] and indexes a suggestion of the
    sequence returns the message of that suggestion; a line that strips
    to anything else prints the help line and the loop goes on with the
    rest of the input, prompting again. *)
Theorem selector_contract (ss : list suggestion) (st : state)
  (line : string) (rest : list string) :
  stdin st = line :: rest ->
  (strip line = "" ->
   display_suggestions (suggestions_value ss) st
   = (Val VNone, with_io st rest (EBanner :: listing 1 ss ++ [EChoose])))
  /\ (forall s, strip line ∈ ["1"; "2"; "3"] ->
        nth_error ss (int (strip line) - 1) = Some s ->
        display_suggestions (suggestions_value ss) st
        = (Val (VStr (sg_message s)),
           with_io st rest (EBanner :: listing 1 ss ++ [EChoose])))
  /\ (strip line ∉ [""; "1"; "2"; "3"] ->
      display_suggestions (suggestions_value ss) st
      = choice_loop (suggestions_value ss) rest
          (with_io st rest (EBanner :: listing 1 ss ++ [EChoose; EHelp]))).
Proof.
  intros Hin. rewrite display_suggestions_listing, Hin.
  rewrite choice_loop_step by done. rewrite with_io_twice.
  split; [|split].
  - intros ->. by rewrite select_empty.
  - intros s Hc Hs. by rewrite (select_index ss _ s).
  - intros Hc. rewrite select_other by done.
    by rewrite with_io_twice, <- app_assoc.
Qed.

Lemma selector_contract_witness :
  display_suggestions
    (suggestions_value (map sample_suggestion ["a"; "b"; "c"]))
    (sample_state [] [" 2 "] "m")
  = (Val (VStr "b"),
     with_io (sample_state [] [" 2 "] "m") []
       (EBanner :: listing 1 (map sample_suggestion ["a"; "b"; "c"]) ++ [EChoose])).
Proof.
  pose proof (selector_contract (map sample_suggestion ["a"; "b"; "c"])
                (sample_state [] [" 2 "] "m") " 2 " [] eq_refl) as (_ & H & _).
  apply (H (sample_suggestion "b")); [|reflexivity].
  apply elem_of_cons. right. apply elem_of_cons. by left.
Defined.

(** ** The AI step and the fallback *)

Section Fallback.

Variable w : world.
Hypothesis set_iter_nonempty : forall s, s <> ∅ -> set_iter w s <> [].

Implicit Types (st : state) (pkg : package) (pkgs : list package).

Lemma next_iter_total (s : gset string) :
  s <> ∅ -> exists t, next_iter w s = Val t.
Proof.
  intros Hs. unfold next_iter. pose proof (set_iter_nonempty s Hs) as H.
  destruct (set_iter w s) as [|x l]; [done|]. by exists x.
Qed.

Lemma header_total original_msg pkg :
  types pkg <> ∅ -> exists m, header w original_msg pkg = Val m.
Proof.
  intros Hs. unfold header. destruct (next_iter_total _ Hs) as [t Ht].
  rewrite Ht. cbn [rbind].
  destruct (has_char ":" original_msg) eqn:Hc.
  - rewrite format_commit_message_colon by done. eauto.
  - unfold format_commit_message. rewrite Hc, Ht.
    destruct (String.eqb t ""); eauto.
Qed.

Lemma fallback_message_total original_msg pkgs :
  pkgs <> [] -> (forall p, p ∈ pkgs -> types p <> ∅) ->
  exists m, fallback_message w original_msg pkgs = Val m.
Proof.
  intros Hne Hty. destruct pkgs as [|p r]; [done|].
  destruct (header_total original_msg p) as [m Hm]; [apply Hty; left|].
  unfold fallback_message.
  destruct (Nat.ltb 1 (length (p :: r))); rewrite Hm; cbn [rbind]; eauto.
Qed.

Lemma prompt_user_run st :
  exists b answers,
    prompt_user st
    = (Val b, {| tty := answers; stdin := stdin st; out := out st;
                 msg_file := msg_file st |}).
Proof.
  unfold prompt_user. destruct st as [[[|l r]|] i o f]; simpl; eauto.
Qed.

(** A failing AI step yields a false value and prints at most its own
    warning. *)
Lemma get_ai_suggestion_fails st :
  ai_step_fails w = true ->
  exists v evs,
    get_ai_suggestion w st = (Val v, with_io st (stdin st) evs)
    /\ truthy v = false
    /\ (forall e, EError e ∉ evs).
Proof.
  unfold ai_step_fails, get_ai_suggestion. intros H.
  destruct (has_openai w); simpl in *.
  - assert (forall x, EError x ∉ [EAIFailed APIError]) as H1
      by (intros x Hx; apply list_elem_of_singleton in Hx; discriminate).
    assert (forall x, EError x ∉ [EAIFailed JSONDecodeError]) as H2
      by (intros x Hx; apply list_elem_of_singleton in Hx; discriminate).
    assert (forall x, EError x ∉ [EAIFailed AttributeError]) as H3
      by (intros x Hx; apply list_elem_of_singleton in Hx; discriminate).
    destruct (ai_completion w) as [| |[]]; try (by eauto).
    destruct (dict_get d "suggestions"); [done|].
    exists (VList []), []. rewrite with_io_id.
    split; [done|]. split; [done|]. intros x Hx. by apply elem_of_nil in Hx.
  - exists VNone, []. rewrite with_io_id.
    split; [done|]. split; [done|]. intros x Hx. by apply elem_of_nil in Hx.
Qed.

Lemma ai_flow_fails st :
  ai_step_fails w = true ->
  exists answers evs,
    ai_flow w st
    = (Val false, {| tty := answers; stdin := stdin st; out := out st ++ evs;
                     msg_file := msg_file st |})
    /\ (forall e, EError e ∉ evs).
Proof.
  intros H. unfold ai_flow, bind.
  destruct (prompt_user_run st) as (b & answers & ->).
  destruct b.
  - destruct (get_ai_suggestion_fails
                {| tty := answers; stdin := stdin st; out := out st;
                   msg_file := msg_file st |} H) as (v & evs & -> & Hv & He).
    rewrite Hv. exists answers, evs. split; [done|exact He].
  - exists answers, []. rewrite app_nil_r. split; [done|].
    intros x Hx. by apply elem_of_nil in Hx.
Qed.

Lemma fallback_flow_run original_msg pkgs new_msg st contents :
  fallback_message w original_msg pkgs = Val new_msg ->
  msg_file st = Some contents ->
  exists answers final,
    fallback_flow w original_msg pkgs st
    = (Val tt, {| tty := answers; stdin := stdin st; out := out st;
                  msg_file := Some final |})
    /\ (final = new_msg \/ final = contents).
Proof.
  intros Hm Hf. unfold fallback_flow, bind, lift. rewrite Hm.
  destruct (prompt_user_run st) as (b & answers & ->).
  destruct b; unfold write_msg_file, ret; simpl; rewrite Hf; eauto.
Qed.

End Fallback.


(** * Further properties *)

(** ** The classifier: letter case, order and labels *)

Section ClassifierMore.

Implicit Types (c : ascii) (s : string).

Lemma lower_char_eqb_slash c :
  Ascii.eqb (lower_char c) "/" = Ascii.eqb c "/".
Proof. destruct c as [[] [] [] [] [] [] [] []]; reflexivity. Qed.

Lemma lower_char_eqb_dot c :
  Ascii.eqb (lower_char c) "." = Ascii.eqb c ".".
Proof. destruct c as [[] [] [] [] [] [] [] []]; reflexivity. Qed.

Lemma lower_char_idem c : lower_char (lower_char c) = lower_char c.
Proof. destruct c as [[] [] [] [] [] [] [] []]; reflexivity. Qed.

Lemma lower_idem s : lower (lower s) = lower s.
Proof.
  induction s as [|a s IH]; simpl; [done|].
  by rewrite lower_char_idem, IH.
Qed.

Lemma split_lower s : split "/" (lower s) = map lower (split "/" s).
Proof.
  induction s as [|a s IH]; simpl; [done|].
  rewrite lower_char_eqb_slash, IH.
  destruct (Ascii.eqb a "/"); [done|].
  by destruct (split "/" s).
Qed.

Lemma lower_eqb_empty s : String.eqb (lower s) "" = String.eqb s "".
Proof. by destruct s. Qed.

Lemma lower_eqb_dot s : String.eqb (lower s) "." = String.eqb s ".".
Proof.
  destruct s as [|a s]; [done|]. simpl.
  rewrite lower_char_eqb_dot. destruct (Ascii.eqb a "."); [|done].
  by destruct s.
Qed.

Lemma filter_map_lower (l : list string) :
  List.filter (fun p => negb (String.eqb p "" || String.eqb p ".")) (map lower l)
  = map lower
      (List.filter (fun p => negb (String.eqb p "" || String.eqb p ".")) l).
Proof.
  induction l as [|x l IH]; simpl; [done|].
  rewrite lower_eqb_empty, lower_eqb_dot, IH.
  by destruct (negb _).
Qed.

Lemma last_map_lower (l : list string) :
  List.last (map lower l) "" = lower (List.last l "").
Proof.
  induction l as [|x [|y l] IH]; [done|done|].
  change (List.last (map lower (x :: y :: l)) "")
    with (List.last (map lower (y :: l)) "").
  by rewrite IH.
Qed.

Lemma path_name_lower s : path_name (lower s) = lower (path_name s).
Proof.
  unfold path_name. by rewrite split_lower, filter_map_lower, last_map_lower.
Qed.

Lemma file_label_lower s : file_label (lower s) = file_label s.
Proof. unfold file_label. by rewrite path_name_lower, !lower_idem. Qed.

Lemma file_label_labels s label :
  file_label s = Some label -> label ∈ all_labels.
Proof.
  unfold file_label, all_labels.
  repeat match goal with
         | |- context [if ?b then _ else _] => destruct b
         end; intros [= <-]; set_solver.
Qed.

Lemma types_loop_ext (files1 files2 : list string) :
  (forall label, (exists f, f ∈ files1 /\ file_label f = Some label)
                 <-> (exists f, f ∈ files2 /\ file_label f = Some label)) ->
  foldl add_file_type ∅ files1 = foldl add_file_type ∅ files2.
Proof.
  intros H. apply leibniz_equiv. intros x.
  rewrite !elem_of_types_loop. rewrite H. done.
Qed.

Lemma detect_change_types_ext (files1 files2 : list string) :
  (forall label, (exists f, f ∈ files1 /\ file_label f = Some label)
                 <-> (exists f, f ∈ files2 /\ file_label f = Some label)) ->
  detect_change_types files1 = detect_change_types files2.
Proof.
  intros H. rewrite !detect_change_types_loop.
  by rewrite (types_loop_ext files1 files2 H).
Qed.

End ClassifierMore.

(** X1. The classifier ignores letter case: two file lists whose paths
    agree once lower-cased get the same labels. *)
Theorem detect_change_types_case_insensitive (files1 files2 : list string) :
  map lower files1 = map lower files2 ->
  detect_change_types files1 = detect_change_types files2.
Proof.
  intros H. apply detect_change_types_ext. intros label.
  assert (forall l1 l2, map lower l1 = map lower l2 ->
            (exists f, f ∈ l1 /\ file_label f = Some label) ->
            exists f, f ∈ l2 /\ file_label f = Some label) as Hone.
  { clear. intros l1 l2 H (f & Hf & Hl).
    assert (lower f ∈ map lower l2) as Hin
      by (rewrite <- H; by apply list_elem_of_fmap_2).
    apply list_elem_of_fmap in Hin as (g & Hg & Hin).
    exists g. split; [done|].
    by rewrite <- (file_label_lower g), <- Hg, file_label_lower. }
  split; apply Hone; done.
Qed.

Lemma detect_change_types_case_insensitive_witness :
  detect_change_types ["Docs/GUIDE.MD"; "SRC/App.TEST.ts"]
  = detect_change_types ["docs/guide.md"; "src/app.test.ts"].
Proof.
  apply (detect_change_types_case_insensitive
           ["Docs/GUIDE.MD"; "SRC/App.TEST.ts"]
           ["docs/guide.md"; "src/app.test.ts"]).
  reflexivity.
Defined.

(** X2. The labels depend on which files are in the list only: their
    order and their repetitions do not matter. *)
Theorem detect_change_types_set_of_files (files1 files2 : list string) :
  (forall f, f ∈ files1 <-> f ∈ files2) ->
  detect_change_types files1 = detect_change_types files2.
Proof.
  intros H. apply detect_change_types_ext. intros label.
  split; intros (f & Hf & Hl); exists f; (split; [by apply H|done]).
Qed.

Lemma detect_change_types_set_of_files_witness :
  detect_change_types ["a.css"; "b.md"; "a.css"]
  = detect_change_types ["b.md"; "a.css"].
Proof.
  apply (detect_change_types_set_of_files
           ["a.css"; "b.md"; "a.css"] ["b.md"; "a.css"]).
  intros f. rewrite !elem_of_cons. tauto.
Defined.

(** X3. Every label the classifier returns is one of [test], [docs],
    [style], [chore], [fix] and [feat]. *)
Theorem detect_change_types_labels (files : list string) (label : string) :
  label ∈ detect_change_types files -> label ∈ all_labels.
Proof.
  rewrite detect_change_types_loop. case_decide as E.
  - intros ->%elem_of_singleton. unfold all_labels. set_solver.
  - intros [H|(f & _ & Hl)]%elem_of_types_loop.
    + by apply not_elem_of_empty in H.
    + by eapply file_label_labels.
Qed.

Lemma detect_change_types_labels_witness :
  "style" ∈ all_labels.
Proof.
  apply (detect_change_types_labels ["theme/app.scss"] "style").
  vm_compute. reflexivity.
Defined.

(** ** The collector: order, contents and names of the packages *)

Section CollectorOrder.

Implicit Types (k v : string) (l m ks : list string).

Lemma first_occurrences_In m k : In k (first_occurrences m) <-> In k m.
Proof.
  induction m as [|x r IH]; simpl; [done|].
  rewrite filter_In, IH. split.
  - intros [?|[? _]]; auto.
  - intros [?|?]; [by left|].
    destruct (String.eqb k x) eqn:E.
    + left. by apply String.eqb_eq in E.
    + right. by split.
Qed.

Lemma first_occurrences_NoDup m : List.NoDup (first_occurrences m).
Proof.
  induction m as [|x r IH]; simpl; [constructor|].
  constructor; [|by apply List.NoDup_filter].
  rewrite filter_In. intros [_ H]. by rewrite String.eqb_refl in H.
Qed.

Lemma first_occurrences_snoc_new m k :
  ~ In k m -> first_occurrences (m ++ [k]) = first_occurrences m ++ [k].
Proof.
  induction m as [|x r IH]; simpl; [done|]. intros H.
  rewrite IH by tauto. rewrite List.filter_app. simpl.
  destruct (String.eqb k x) eqn:E; [|done].
  apply String.eqb_eq in E. exfalso. apply H. by left.
Qed.

Lemma first_occurrences_snoc_old m k :
  In k m -> first_occurrences (m ++ [k]) = first_occurrences m.
Proof.
  induction m as [|x r IH]; simpl; [done|]. intros H.
  destruct (in_dec string_dec k r) as [Hr|Hr].
  - by rewrite IH.
  - destruct H as [->|H]; [|done].
    rewrite first_occurrences_snoc_new by done.
    rewrite List.filter_app. simpl. rewrite String.eqb_refl. simpl.
    by rewrite app_nil_r.
Qed.

Lemma dict_append_new (g : string -> list string) ks k v :
  ~ In k ks ->
  dict_append (map (fun key => (key, g key)) ks) k v
  = map (fun key => (key, g key)) ks ++ [(k, [v])].
Proof.
  induction ks as [|x r IH]; simpl; [done|]. intros H.
  destruct (String.eqb x k) eqn:E.
  - apply String.eqb_eq in E. exfalso. apply H. by left.
  - rewrite IH by tauto. done.
Qed.

Lemma dict_append_old (g : string -> list string) ks k v :
  In k ks -> List.NoDup ks ->
  dict_append (map (fun key => (key, g key)) ks) k v
  = map (fun key => (key, if String.eqb key k then g key ++ [v] else g key)) ks.
Proof.
  induction ks as [|x r IH]; simpl; [done|]. intros H Hnd.
  apply List.NoDup_cons_iff in Hnd as [Hx Hr].
  destruct (String.eqb x k) eqn:E.
  - apply String.eqb_eq in E as ->. f_equal.
    apply map_ext_in. intros y Hy.
    destruct (String.eqb y k) eqn:Ey; [|done].
    apply String.eqb_eq in Ey as ->. done.
  - f_equal. apply IH; [|done]. destruct H as [->|H]; [|done].
    by rewrite String.eqb_refl in E.
Qed.

Lemma files_under_snoc key l file :
  files_under key (l ++ [file])
  = files_under key l
    ++ (if String.eqb (package_key file) key then [file] else []).
Proof. unfold files_under. by rewrite List.filter_app. Qed.

Lemma files_under_none key l :
  ~ In key (map package_key l) -> files_under key l = [].
Proof.
  induction l as [|f l IH]; simpl; [done|]. intros H.
  destruct (String.eqb (package_key f) key) eqn:E.
  - apply String.eqb_eq in E. exfalso. apply H. by left.
  - apply IH. tauto.
Qed.

(** The dictionary the first loop builds from the paths it keeps. *)
Lemma dict_append_grouped l file :
  dict_append
    (map (fun key => (key, files_under key l))
         (first_occurrences (map package_key l)))
    (package_key file) file
  = map (fun key => (key, files_under key (l ++ [file])))
        (first_occurrences (map package_key (l ++ [file]))).
Proof.
  rewrite map_app. simpl.
  destruct (in_dec string_dec (package_key file) (map package_key l)) as [H|H].
  - rewrite first_occurrences_snoc_old by done.
    rewrite dict_append_old;
      [|by apply first_occurrences_In|apply first_occurrences_NoDup].
    apply map_ext. intros key. rewrite files_under_snoc.
    rewrite (String.eqb_sym (package_key file) key).
    destruct (String.eqb key (package_key file)); [done|by rewrite app_nil_r].
  - rewrite first_occurrences_snoc_new by done.
    rewrite dict_append_new by (by rewrite first_occurrences_In).
    rewrite map_app. simpl. f_equal.
    + apply map_ext_in. intros key Hkey. rewrite files_under_snoc.
      destruct (String.eqb (package_key file) key) eqn:E;
        [|by rewrite app_nil_r].
      apply String.eqb_eq in E as <-. exfalso. apply H.
      by apply first_occurrences_In.
    + rewrite files_under_snoc, String.eqb_refl.
      by rewrite (files_under_none _ _ H).
Qed.

Lemma nonempty_paths_snoc l file :
  nonempty_paths (l ++ [file])
  = nonempty_paths l ++ (if String.eqb file "" then [] else [file]).
Proof.
  unfold nonempty_paths. rewrite List.filter_app. simpl.
  by destruct (String.eqb file "").
Qed.

Lemma group_files_grouped l :
  group_files l
  = map (fun key => (key, files_under key (nonempty_paths l)))
        (first_occurrences (map package_key (nonempty_paths l))).
Proof.
  induction l as [|file l IH] using rev_ind; [done|].
  unfold group_files in *. rewrite foldl_app. simpl.
  rewrite IH, add_changed_file_key, nonempty_paths_snoc.
  destruct (String.eqb file ""); [by rewrite app_nil_r|].
  apply dict_append_grouped.
Qed.

Lemma split_no_sep c s : has_char c s = false -> split c s = [s].
Proof.
  induction s as [|a s IH]; simpl; [done|].
  intros [Ha Hs]%orb_false_iff. rewrite Ha, (IH Hs). done.
Qed.

Lemma split_parts_no_sep c s :
  Forall (fun part => has_char c part = false) (split c s).
Proof.
  induction s as [|a s IH]; simpl; [by constructor|].
  destruct (Ascii.eqb a c) eqn:E; [by constructor|].
  destruct (split c s) as [|h r]; [constructor; [|done]; simpl; by rewrite E|].
  apply Forall_cons in IH as [Hh Hr].
  constructor; [|done]. simpl. by rewrite E, Hh.
Qed.

Lemma last_segment_no_slash s : has_char "/" (last_segment s) = false.
Proof.
  unfold last_segment.
  pose proof (split_parts_no_sep "/" s) as H.
  induction (split "/" s) as [|x [|y r] IH]; [done| |].
  - by apply Forall_cons in H as [H _].
  - apply Forall_cons in H as [_ H]. by apply IH.
Qed.

Lemma last_segment_of_key X :
  has_char "/" X = false -> last_segment ("packages/" +:+ X) = X.
Proof.
  intros H. unfold last_segment. simpl.
  by rewrite (split_no_sep _ _ H).
Qed.

Lemma make_packages_raise w entries :
  (exists entry, entry ∈ entries /\ make_package w entry = Raise AttributeError) ->
  make_packages w entries = Raise AttributeError.
Proof.
  induction entries as [|e r IH]; intros (entry & Hin & He).
  - by apply elem_of_nil in Hin.
  - cbn [make_packages]. apply elem_of_cons in Hin as [<-|Hin].
    + by rewrite He.
    + rewrite IH by (by exists entry).
      destruct (make_package w e) as [p|x|c] eqn:E; [done| |].
      * unfold make_package in E. destruct e as [k fs].
        destruct (String.eqb k "root"); [done|].
        destruct (truthy (package_json_name w k)); [|done].
        destruct (package_json_name w k); by inversion E.
      * unfold make_package in E. destruct e as [k fs].
        destruct (String.eqb k "root"); [done|].
        destruct (truthy (package_json_name w k)); [|done].
        destruct (package_json_name w k); by inversion E.
Qed.

Lemma group_files_key_present l file :
  file ∈ l -> file <> "" -> exists fs, (package_key file, fs) ∈ group_files l.
Proof.
  intros Hin Hne.
  destruct (group_loop [] l) as (_ & Hk & Hp).
  { apply NoDup_nil_2. }
  { intros key fs f H. by apply elem_of_nil in H. }
  change (foldl add_changed_file [] l) with (group_files l) in *.
  simpl in Hp.
  assert (file ∈ concat (map snd (group_files l))) as Hc.
  { rewrite Hp. by apply list_elem_of_filter. }
  apply list_elem_of_In, in_concat in Hc as (fs & Hfs & Hf).
  apply list_elem_of_In in Hf.
  apply list_elem_of_In, list_elem_of_fmap in Hfs as ([k fs'] & -> & Hentry).
  simpl in Hf.
  exists fs'. by rewrite <- (Hk k fs' file Hentry Hf).
Qed.

Lemma dict_append_nonempty (d : list (string * list string)) k v :
  (forall key fs, (key, fs) ∈ d -> fs <> []) ->
  forall key fs, (key, fs) ∈ dict_append d k v -> fs <> [].
Proof.
  induction d as [|[k' vs] r IH]; simpl; intros Hd key fs.
  - by intros [= _ ->]%list_elem_of_singleton.
  - destruct (String.eqb k' k).
    + intros [[= _ ->]|H]%elem_of_cons.
      * by destruct vs.
      * apply (Hd key). by right.
    + intros [[= -> ->]|H]%elem_of_cons.
      * apply (Hd k'). left.
      * apply (IH (fun key fs H => Hd key fs (list_elem_of_further _ _ _ H))
                 key fs H).
Qed.

Lemma group_files_nonempty l key fs :
  (key, fs) ∈ group_files l -> fs <> [].
Proof.
  unfold group_files.
  assert (forall d, (forall key fs, (key, fs) ∈ d -> fs <> []) ->
            forall key fs, (key, fs) ∈ foldl add_changed_file d l -> fs <> [])
    as H.
  { induction l as [|f l IH]; intros d Hd; simpl; [done|].
    apply IH. rewrite add_changed_file_key.
    destruct (String.eqb f ""); [done|]. by apply dict_append_nonempty. }
  apply H. intros k0 fs0 H0. by apply elem_of_nil in H0.
Qed.

End CollectorOrder.

Section CollectorPackages.

Variable w : world.

Lemma make_package_scope k fs p :
  make_package w (k, fs) = Val p -> has_char "/" (scope p) = false.
Proof.
  unfold make_package.
  destruct (String.eqb k "root"); [by intros [= <-]|].
  destruct (truthy (package_json_name w k)).
  - destruct (package_json_name w k); try done.
    intros [= <-]. apply last_segment_no_slash.
  - intros [= <-]. apply last_segment_no_slash.
Qed.

Lemma make_packages_elem entries pkgs p :
  make_packages w entries = Val pkgs -> p ∈ pkgs ->
  exists entry, entry ∈ entries /\ make_package w entry = Val p.
Proof.
  revert pkgs. induction entries as [|e r IH]; intros pkgs.
  - intros [= <-] Hp. by apply elem_of_nil in Hp.
  - intros (p0 & ps & Hp0 & Hps & ->)%make_packages_cons Hp.
    apply elem_of_cons in Hp as [->|Hp].
    + exists e. split; [left|done].
    + destruct (IH ps Hps Hp) as (entry & Hin & He).
      exists entry. split; [by right|done].
Qed.

Lemma package_key_not_root file :
  startswith "packages/" file = true ->
  String.eqb (package_key file) "root" = false.
Proof. intros H. unfold package_key. by rewrite H. Qed.

End CollectorPackages.

(** X4. The packages come in the order in which their keys first occur
    among the staged paths, and each package lists its files in the order
    of the staged list. *)
Theorem collector_order (changed_files : list string) :
  map fst (group_files changed_files)
  = first_occurrences (map package_key (nonempty_paths changed_files))
  /\ (forall key fs, (key, fs) ∈ group_files changed_files ->
        fs = files_under key (nonempty_paths changed_files))
  /\ (forall w pkgs, make_packages w (group_files changed_files) = Val pkgs ->
        map files pkgs
        = map (fun key => files_under key (nonempty_paths changed_files))
            (first_occurrences (map package_key (nonempty_paths changed_files)))).
Proof.
  rewrite group_files_grouped. split; [|split].
  - rewrite map_map. simpl. apply map_id.
  - intros key fs H. apply list_elem_of_fmap in H as (k & [= -> ->] & _). done.
  - intros w pkgs H. rewrite (make_packages_files w _ _ H).
    by rewrite map_map.
Qed.

Lemma collector_order_witness :
  map fst (group_files ["packages/ui/a.ts"; "README.md"; "packages/api/b.ts";
                        "packages/ui/c.ts"; "LICENSE"])
  = ["packages/ui"; "root"; "packages/api"]
  /\ make_packages (sample_world None CallRaises)
       (group_files ["packages/ui/a.ts"; "README.md"; "packages/api/b.ts";
                     "packages/ui/c.ts"; "LICENSE"])
     = Val [{| name := "ui"; scope := "ui";
               files := ["packages/ui/a.ts"; "packages/ui/c.ts"];
               types := {["feat"]} |};
            {| name := "root"; scope := "root";
               files := ["README.md"; "LICENSE"]; types := {["docs"]} |};
            {| name := "api"; scope := "api";
               files := ["packages/api/b.ts"]; types := {["feat"]} |}].
Proof.
  pose proof (collector_order ["packages/ui/a.ts"; "README.md";
                "packages/api/b.ts"; "packages/ui/c.ts"; "LICENSE"])
    as (H & _ & _).
  split; [exact H|vm_compute; reflexivity].
Defined.

(** X5. Every package the collector returns has at least one file, carries
    the labels the classifier gives to its files (never none), and has a
    scope without a slash. *)
Theorem packages_well_formed (w : world) (pkgs : list package) (p : package) :
  get_changed_packages w = Val pkgs -> p ∈ pkgs ->
  files p <> []
  /\ types p = detect_change_types (files p)
  /\ types p <> ∅
  /\ has_char "/" (scope p) = false.
Proof.
  unfold get_changed_packages. destruct (staged w) as [output|]; [|done].
  intros Hpk Hp.
  destruct (make_packages_elem w _ _ _ Hpk Hp) as ([k fs] & Hin & He).
  pose proof (make_package_files w k fs p He) as [Hf Ht].
  split; [|split; [|split]].
  - rewrite Hf. by eapply group_files_nonempty.
  - by rewrite Ht, Hf.
  - rewrite Ht. apply detect_change_types_nonempty.
  - by eapply make_package_scope.
Qed.

Lemma packages_well_formed_witness :
  types {| name := "docs"; scope := "docs";
           files := ["packages/docs/README.md"]; types := {["docs"]} |} <> ∅
  /\ has_char "/" (scope {| name := "docs"; scope := "docs";
                            files := ["packages/docs/README.md"];
                            types := {["docs"]} |}) = false.
Proof.
  pose proof (packages_well_formed
                (sample_world (Some "packages/docs/README.md") CallRaises)
                [{| name := "docs"; scope := "docs";
                    files := ["packages/docs/README.md"];
                    types := {["docs"]} |}]
                {| name := "docs"; scope := "docs";
                   files := ["packages/docs/README.md"];
                   types := {["docs"]} |}) as H.
  destruct H as (_ & _ & H3 & H4); [vm_compute; reflexivity|left|].
  exact (conj H3 H4).
Defined.

(** X6. A package directory [packages/<X>] without a usable manifest name
    (no manifest, a broken one, one that is not an object, one without
    [name], or a name that is null, empty, zero or false) is named [X] with
    scope [X]; a manifest that declares a non-empty string name gives the
    package that name and, as scope, the part of the name after its last
    slash. *)
Theorem package_naming (w : world) (X : string) (fs : list string) (m : manifest) :
  has_char "/" X = false ->
  package_json_name w ("packages/" +:+ X) = get_package_json_name m ->
  (truthy (get_package_json_name m) = false ->
   make_package w ("packages/" +:+ X, fs)
   = Val {| name := X; scope := X; files := fs;
            types := detect_change_types fs |})
  /\ (forall n, get_package_json_name m = VStr n -> n <> "" ->
      make_package w ("packages/" +:+ X, fs)
      = Val {| name := n; scope := last_segment n; files := fs;
               types := detect_change_types fs |})
  /\ ((m = NoManifest \/ m = BrokenManifest
       \/ (exists v, m = Manifest v /\ forall d, v <> VDict d)
       \/ (exists d, m = Manifest (VDict d) /\ dict_get d "name" = None)) ->
      truthy (get_package_json_name m) = false).
Proof.
  intros HX Hw. split; [|split].
  - intros Hf. unfold make_package. simpl String.eqb. cbv iota.
    rewrite Hw, Hf. by rewrite (last_segment_of_key X HX).
  - intros n Hn Hne. unfold make_package. simpl String.eqb. cbv iota.
    rewrite Hw, Hn. simpl. destruct (String.eqb n "") eqn:E; [|done].
    by apply String.eqb_eq in E.
  - intros [->|[->|[(v & -> & Hv)|(d & -> & Hd)]]]; try done.
    + destruct v; try done. by destruct (Hv d).
    + simpl. by rewrite Hd.
Qed.

Lemma package_naming_witness :
  make_package
    {| staged := None;
       package_json_name := fun _ => VStr "@acme/web-ui";
       set_iter := elements; has_openai := false; ai_completion := CallRaises;
       why_unreadable := CannotOpen |}
    ("packages/" +:+ "ui", ["packages/ui/index.ts"])
  = Val {| name := "@acme/web-ui"; scope := "web-ui";
           files := ["packages/ui/index.ts"];
           types := detect_change_types ["packages/ui/index.ts"] |}.
Proof.
  pose proof (package_naming
                {| staged := None;
                   package_json_name := fun _ => VStr "@acme/web-ui";
                   set_iter := elements; has_openai := false;
                   ai_completion := CallRaises;
                   why_unreadable := CannotOpen |}
                "ui" ["packages/ui/index.ts"]
                (Manifest (VDict [("name", VStr "@acme/web-ui")]))
                eq_refl eq_refl) as (_ & H & _).
  apply (H "@acme/web-ui"); [reflexivity|discriminate].
Defined.

(** X7. A manifest whose name is neither a string nor false in a condition
    (a number other than zero, [true], a non-empty list or object) makes
    the collector raise [AttributeError], and the run exits with status 1
    without touching the message. *)
Theorem manifest_name_not_a_string (w : world) (st : state)
  (contents output file : string) :
  msg_file st = Some contents ->
  startswith "Merge" (strip contents) = false ->
  staged w = Some output ->
  file ∈ split "010" (strip output) ->
  startswith "packages/" file = true ->
  truthy (package_json_name w (package_key file)) = true ->
  (forall n, package_json_name w (package_key file) <> VStr n) ->
  get_changed_packages w = Raise AttributeError
  /\ main w st = (1%Z, with_io st (stdin st) [EError AttributeError]).
Proof.
  intros Hfile Hmerge Hs Hin Hstart Htruthy Hnot.
  assert (get_changed_packages w = Raise AttributeError) as Hraise.
  { unfold get_changed_packages. rewrite Hs.
    assert (file <> "") as Hne by (intros ->; discriminate).
    destruct (group_files_key_present _ file Hin Hne) as (fs & Hentry).
    apply make_packages_raise. exists (package_key file, fs).
    split; [done|]. unfold make_package.
    rewrite (package_key_not_root file Hstart), Htruthy.
    destruct (package_json_name w (package_key file)); try done.
    by destruct (Hnot s). }
  split; [done|].
  unfold main, try_except, main_body, bind, read_msg_file, lift.
  by rewrite Hfile, Hmerge, Hraise.
Qed.

Lemma manifest_name_not_a_string_witness :
  main {| staged := Some "packages/ui/index.ts";
          package_json_name := fun _ => VInt 7;
          set_iter := elements; has_openai := false;
          ai_completion := CallRaises; why_unreadable := CannotOpen |}
       (sample_state [] [] "add button")
  = (1%Z, with_io (sample_state [] [] "add button") []
            [EError AttributeError]).
Proof.
  apply (manifest_name_not_a_string
           {| staged := Some "packages/ui/index.ts";
              package_json_name := fun _ => VInt 7;
              set_iter := elements; has_openai := false;
              ai_completion := CallRaises; why_unreadable := CannotOpen |}
           (sample_state [] [] "add button") "add button"
           "packages/ui/index.ts" "packages/ui/index.ts");
    try reflexivity.
  - left.
  - discriminate.
Defined.

(** ** The formatter: formatting again, and failing *)

Section FormatterMore.

Implicit Types (c : ascii) (s : string).

Lemma rstrip_idem s : rstrip (rstrip s) = rstrip s.
Proof.
  induction s as [|a s IH]; simpl; [done|].
  destruct (rstrip s) as [|b r] eqn:E.
  - destruct (is_space a) eqn:Ea; simpl; [done|]. by rewrite Ea.
  - simpl in *. by rewrite IH.
Qed.

Lemma rstrip_head c s :
  is_space c = false -> rstrip (String c s) = String c (rstrip s).
Proof. intros H. simpl. destruct (rstrip s); [by rewrite H|done]. Qed.

Lemma lstrip_head s :
  lstrip s = "" \/ exists c t, lstrip s = String c t /\ is_space c = false.
Proof.
  induction s as [|a s IH]; simpl; [by left|].
  destruct (is_space a) eqn:E; [done|]. right. by exists a, s.
Qed.

Lemma strip_idem s : strip (strip s) = strip s.
Proof.
  unfold strip. destruct (lstrip_head s) as [->|(c & t & -> & Hc)]; [done|].
  rewrite (rstrip_head c t Hc). simpl. rewrite Hc.
  rewrite (rstrip_head c _ Hc). by rewrite rstrip_idem.
Qed.

Lemma has_char_text_before_self c s : has_char c (text_before c s) = false.
Proof.
  induction s as [|a s IH]; simpl; [done|].
  destruct (Ascii.eqb a c) eqn:E; [done|]. simpl. by rewrite E, IH.
Qed.

Lemma has_char_text_before c c' s :
  has_char c s = false -> has_char c (text_before c' s) = false.
Proof.
  induction s as [|a s IH]; simpl; [done|].
  intros [Ha Hs]%orb_false_iff.
  destruct (Ascii.eqb a c'); [done|]. simpl. by rewrite Ha, (IH Hs).
Qed.

Lemma declared_type_no_colon s :
  has_char ":" s = false -> has_char ":" (declared_type s) = false.
Proof.
  intros H. unfold declared_type.
  destruct (_ && _); [by apply has_char_text_before|done].
Qed.

Lemma declared_type_no_open s :
  (has_char "(" s = true -> has_char ")" s = true) ->
  has_char "(" (declared_type s) = false.
Proof.
  intros H. unfold declared_type.
  destruct (has_char "(" s) eqn:E; simpl; [|done].
  rewrite (H eq_refl). apply has_char_text_before_self.
Qed.

(** Formatting a message that already has the shape [type(scope):
    description]. *)
Lemma format_scoped w ty sc desc pkg commit_type :
  has_char ":" ty = false -> has_char "(" ty = false ->
  has_char ":" sc = false -> strip desc = desc ->
  format_commit_message w (ty +:+ "(" +:+ sc +:+ "): " +:+ desc) pkg commit_type
  = Val (ty +:+ "(" +:+ scope pkg +:+ "): " +:+ desc).
Proof.
  intros Hty Hp Hsc Hd. rewrite scoped_shape.
  pose proof (scoped_prefix_no_colon ty sc Hty Hsc) as Hpre.
  rewrite format_commit_message_colon by apply has_char_here.
  rewrite (text_before_append _ _ _ Hpre), (text_after_append _ _ _ Hpre).
  by rewrite (declared_type_scoped ty sc Hp), strip_space, Hd.
Qed.

Lemma label_shape t :
  t ∈ all_labels ->
  t <> "" /\ has_char ":" t = false /\ has_char "(" t = false.
Proof.
  unfold all_labels. intros H.
  repeat (apply elem_of_cons in H as [->|H]; [done|]).
  by apply elem_of_nil in H.
Qed.

End FormatterMore.

(** X8. Formatting is stable on its own output: the result for a message
    with a colon, in which an opening parenthesis before the colon is
    followed by a closing one, is returned unchanged when it is formatted
    again for the same package (whose scope has no colon). *)
Theorem format_twice_colon (w : world) (msg formatted : string) (pkg : package)
  (t1 t2 : option string) :
  has_char ":" msg = true ->
  (has_char "(" (text_before ":" msg) = true ->
   has_char ")" (text_before ":" msg) = true) ->
  has_char ":" (scope pkg) = false ->
  format_commit_message w msg pkg t1 = Val formatted ->
  format_commit_message w formatted pkg t2 = Val formatted.
Proof.
  intros Hc Hparen Hscope. rewrite (format_commit_message_colon w msg) by done.
  intros [= <-]. apply format_scoped; [| |done|apply strip_idem].
  - apply declared_type_no_colon, has_char_text_before_self.
  - by apply declared_type_no_open.
Qed.

Lemma format_twice_colon_witness :
  format_commit_message (sample_world None CallRaises)
    "fix(auth): handle  timeout" (sample_package "auth" {["test"]}) (Some "docs")
  = Val "fix(auth): handle  timeout".
Proof.
  apply (format_twice_colon (sample_world None CallRaises)
           "fix(api):  handle  timeout " "fix(auth): handle  timeout"
           (sample_package "auth" {["test"]}) None (Some "docs"));
    reflexivity.
Defined.

(** X9. The same holds for a message without a colon that is already
    stripped, formatted with one of the classifier's labels as type: the
    result is [label(scope): message], and formatting it again returns it
    unchanged. *)
Theorem format_twice_plain (w : world) (msg t : string) (pkg : package)
  (t2 : option string) :
  has_char ":" msg = false ->
  strip msg = msg ->
  t ∈ all_labels ->
  has_char ":" (scope pkg) = false ->
  format_commit_message w msg pkg (Some t)
  = Val (t +:+ "(" +:+ scope pkg +:+ "): " +:+ msg)
  /\ format_commit_message w (t +:+ "(" +:+ scope pkg +:+ "): " +:+ msg) pkg t2
     = Val (t +:+ "(" +:+ scope pkg +:+ "): " +:+ msg).
Proof.
  intros Hc Hs Ht Hscope. destruct (label_shape t Ht) as (Hne & Htc & Htp).
  split; [by apply format_commit_message_plain|by apply format_scoped].
Qed.

Lemma format_twice_plain_witness :
  format_commit_message (sample_world None CallRaises) "update login flow"
    (sample_package "auth" {["fix"]}) (Some "fix")
  = Val "fix(auth): update login flow"
  /\ format_commit_message (sample_world None CallRaises)
       "fix(auth): update login flow" (sample_package "auth" {["fix"]}) None
     = Val "fix(auth): update login flow".
Proof.
  apply (format_twice_plain (sample_world None CallRaises) "update login flow"
           "fix" (sample_package "auth" {["fix"]}) None);
    try reflexivity.
  unfold all_labels. do 4 apply list_elem_of_further. apply list_elem_of_here.
Defined.

(** X10. The formatter fails in one situation only: the message has no
    colon, no type (or the empty string) is passed, and the iteration
    over the labels of the package yields nothing; the exception is then
    [StopIteration]. It never exits. *)
Theorem format_commit_message_failure (w : world) (msg : string) (pkg : package)
  (commit_type : option string) :
  (forall e, format_commit_message w msg pkg commit_type = Raise e <->
     e = StopIteration /\ has_char ":" msg = false
     /\ (commit_type = None \/ commit_type = Some "")
     /\ set_iter w (types pkg) = [])
  /\ (forall code, format_commit_message w msg pkg commit_type <> SysExit code).
Proof.
  destruct (has_char ":" msg) eqn:Hc.
  - rewrite (format_commit_message_colon w msg) by done.
    split; [|done]. intros e. split; [done|]. by intros (_ & ? & _).
  - unfold format_commit_message, next_iter. rewrite Hc.
    destruct commit_type as [t|].
    + destruct (String.eqb t "") eqn:Et.
      * apply String.eqb_eq in Et as ->.
        destruct (set_iter w (types pkg)) as [|x l]; split; try done.
        -- intros e. split; [intros [= <-]; auto|by intros (-> & _)].
        -- intros e. split; [done|]. by intros (_ & _ & _ & ?).
      * split; [|done]. intros e. split; [done|].
        intros (_ & _ & [?| [= ->]] & _); [done|].
        by rewrite String.eqb_refl in Et.
    + destruct (set_iter w (types pkg)) as [|x l]; split; try done.
      * intros e. split; [intros [= <-]; auto|by intros (-> & _)].
      * intros e. split; [done|]. by intros (_ & _ & _ & ?).
Qed.

(** ** The selector: malformed suggestions and rejected lines *)

Section SelectorMore.

Implicit Types (st : state) (items : list value) (v : value).

Ltac no_choose :=
  let H := fresh in
  intros H;
  repeat (apply elem_of_cons in H as [H|H]; [discriminate H|]);
  by apply elem_of_nil in H.

Lemma show_suggestions_step d m t sc e i items st :
  dict_get d "message" = Some m -> dict_get d "type" = Some t ->
  dict_get d "scope" = Some sc -> dict_get d "explanation" = Some e ->
  show_suggestions i (VDict d :: items) st
  = show_suggestions (S i) items
      (with_io st (stdin st)
         [EIndex i; EField "Message" m; EField "Type" t; EField "Scope" sc;
          EField "Explanation" e; ERule]).
Proof.
  intros Hm Ht Hs He. cbn [show_suggestions].
  unfold bind, print, lift, subscript_str. rewrite Hm, Ht, Hs, He. simpl.
  unfold with_io. by rewrite <- !app_assoc.
Qed.

Lemma displayable_fields v :
  displayable v = true ->
  exists d m t sc e,
    v = VDict d /\ dict_get d "message" = Some m /\ dict_get d "type" = Some t
    /\ dict_get d "scope" = Some sc /\ dict_get d "explanation" = Some e.
Proof.
  destruct v as [| | | | |d]; try done. unfold displayable.
  destruct (dict_get d "message") as [m|] eqn:Hm; [|done].
  destruct (dict_get d "type") as [t|] eqn:Ht; [|done].
  destruct (dict_get d "scope") as [sc|] eqn:Hs; [|done].
  destruct (dict_get d "explanation") as [e|] eqn:He; [|done].
  intros _. exists d, m, t, sc, e. repeat split; assumption || reflexivity.
Qed.

Lemma show_suggestions_displayable items i st :
  forallb displayable items = true ->
  exists evs,
    show_suggestions i items st = (Val tt, with_io st (stdin st) evs)
    /\ EChoose ∉ evs.
Proof.
  revert i st. induction items as [|a items IH]; intros i st H.
  - exists []. rewrite with_io_id. split; [done|].
    intros H'. by apply elem_of_nil in H'.
  - simpl in H. apply andb_true_iff in H as [Ha Hrest].
    apply displayable_fields in Ha as (d & m & t & sc & e & -> & Hm & Ht & Hs & He).
    rewrite (show_suggestions_step d m t sc e) by done.
    destruct (IH (S i) (with_io st (stdin st)
                [EIndex i; EField "Message" m; EField "Type" t;
                 EField "Scope" sc; EField "Explanation" e; ERule]) Hrest)
      as (evs & -> & Hevs).
    eexists. rewrite with_io_twice. split; [reflexivity|].
    intros [H|H]%elem_of_app; [|done]. revert H. no_choose.
Qed.

Lemma show_suggestions_first_bad v i items st :
  displayable v = false ->
  exists e evs,
    show_suggestions i (v :: items) st = (Raise e, with_io st (stdin st) evs)
    /\ (e = KeyError \/ e = TypeError) /\ EChoose ∉ evs.
Proof.
  intros H. cbn [show_suggestions]. unfold bind, print, lift, subscript_str.
  destruct v as [| | | | |d];
    try (exists TypeError, [EIndex i]; split; [done|split; [auto|no_choose]]).
  unfold displayable in H. simpl.
  destruct (dict_get d "message") as [m|];
    [|exists KeyError, [EIndex i]; split; [done|split; [auto|no_choose]]].
  destruct (dict_get d "type") as [t|];
    [|exists KeyError, [EIndex i; EField "Message" m];
      split; [unfold with_io; simpl; by rewrite <- !app_assoc
             |split; [auto|no_choose]]].
  destruct (dict_get d "scope") as [sc|];
    [|exists KeyError, [EIndex i; EField "Message" m; EField "Type" t];
      split; [unfold with_io; simpl; by rewrite <- !app_assoc
             |split; [auto|no_choose]]].
  destruct (dict_get d "explanation") as [e|]; [done|].
  exists KeyError, [EIndex i; EField "Message" m; EField "Type" t;
                    EField "Scope" sc].
  split; [unfold with_io; simpl; by rewrite <- !app_assoc
         |split; [auto|no_choose]].
Qed.

Lemma show_suggestions_not_displayable items i st :
  forallb displayable items = false ->
  exists e evs,
    show_suggestions i items st = (Raise e, with_io st (stdin st) evs)
    /\ (e = KeyError \/ e = TypeError) /\ EChoose ∉ evs.
Proof.
  revert i st. induction items as [|a items IH]; intros i st H; [done|].
  simpl in H. destruct (displayable a) eqn:Ha.
  - simpl in H.
    apply displayable_fields in Ha as (d & m & t & sc & e & -> & Hm & Ht & Hs & He).
    rewrite (show_suggestions_step d m t sc e) by done.
    destruct (IH (S i) (with_io st (stdin st)
                [EIndex i; EField "Message" m; EField "Type" t;
                 EField "Scope" sc; EField "Explanation" e; ERule]) H)
      as (x & evs & -> & Hx & Hevs).
    exists x. eexists. rewrite with_io_twice. split; [reflexivity|].
    split; [done|].
    intros [H'|H']%elem_of_app; [|done]. revert H'. no_choose.
  - by apply show_suggestions_first_bad.
Qed.

Lemma rejected_spec line :
  rejected line = true -> strip line ∉ [""; "1"; "2"; "3"].
Proof.
  unfold rejected. intros [H0 H]%andb_true_iff. simpl in H.
  intros Hin.
  repeat (apply elem_of_cons in Hin as [Hin|Hin];
          [rewrite Hin in *; discriminate|]).
  by apply elem_of_nil in Hin.
Qed.

Lemma choice_loop_rejected v bad lines st :
  stdin st = bad ++ lines ->
  forallb rejected bad = true ->
  choice_loop v (bad ++ lines) st
  = choice_loop v lines
      (with_io st lines (concat (map (fun _ => [EChoose; EHelp]) bad))).
Proof.
  revert st. induction bad as [|b bad IH]; intros st Hin Hbad.
  - simpl in *. by rewrite <- Hin, with_io_id.
  - simpl in Hbad. apply andb_true_iff in Hbad as [Hb Hbad].
    change ((b :: bad) ++ lines) with (b :: (bad ++ lines)) in *.
    rewrite (choice_loop_step v b (bad ++ lines) st Hin).
    rewrite select_other by (by apply rejected_spec).
    rewrite with_io_twice. rewrite IH by done.
    by rewrite with_io_twice.
Qed.

End SelectorMore.

(** X11. The selector lists a sequence only if every element is an object
    with the fields [message], [type], [scope] and [explanation]
    ([description] is not needed); otherwise it raises [KeyError] or
    [TypeError] before it prompts, and reads no input. *)
Theorem listing_needs_four_fields (items : list value) (st : state) :
  (forallb displayable items = true ->
   exists evs,
     display_suggestions (VList items) st
     = choice_loop (VList items) (stdin st) (with_io st (stdin st) evs)
     /\ EChoose ∉ evs)
  /\ (forallb displayable items = false ->
      exists e evs,
        display_suggestions (VList items) st
        = (Raise e, with_io st (stdin st) evs)
        /\ (e = KeyError \/ e = TypeError) /\ EChoose ∉ evs).
Proof.
  split; intros H; unfold display_suggestions, bind at 1; rewrite print_run;
    unfold bind at 1; unfold lift, iterate; unfold bind.
  - destruct (show_suggestions_displayable items 1
                (with_io st (stdin st) [EBanner]) H) as (evs & -> & Hevs).
    eexists. rewrite with_io_twice. split; [reflexivity|].
    intros [H'|H']%elem_of_cons; [discriminate|done].
  - destruct (show_suggestions_not_displayable items 1
                (with_io st (stdin st) [EBanner]) H)
      as (e & evs & -> & He & Hevs).
    exists e. eexists. rewrite with_io_twice. split; [reflexivity|].
    split; [done|].
    intros [H'|H']%elem_of_cons; [discriminate|done].
Qed.

Lemma listing_needs_four_fields_witness :
  exists e evs,
    display_suggestions
      (VList [VDict [("message", VStr "feat: a"); ("type", VStr "feat")]])
      (sample_state [] ["1"] "m")
    = (Raise e, with_io (sample_state [] ["1"] "m") ["1"] evs)
    /\ (e = KeyError \/ e = TypeError) /\ EChoose ∉ evs.
Proof.
  apply (listing_needs_four_fields
           [VDict [("message", VStr "feat: a"); ("type", VStr "feat")]]
           (sample_state [] ["1"] "m")).
  reflexivity.
Defined.

(** X12. However many lines the selector rejects, it prompts again after
    each of them with the help line in between, and then acts on the first
    line it accepts: an empty one skips, a valid index returns the message
    of that suggestion. *)
Theorem selector_retries (ss : list suggestion) (st : state)
  (bad : list string) (line : string) (rest : list string) :
  stdin st = bad ++ line :: rest ->
  forallb rejected bad = true ->
  (strip line = "" ->
   display_suggestions (suggestions_value ss) st
   = (Val VNone,
      with_io st rest
        (EBanner :: listing 1 ss
         ++ concat (map (fun _ => [EChoose; EHelp]) bad) ++ [EChoose])))
  /\ (forall s, strip line ∈ ["1"; "2"; "3"] ->
        nth_error ss (int (strip line) - 1) = Some s ->
        display_suggestions (suggestions_value ss) st
        = (Val (VStr (sg_message s)),
           with_io st rest
             (EBanner :: listing 1 ss
              ++ concat (map (fun _ => [EChoose; EHelp]) bad) ++ [EChoose]))).
Proof.
  intros Hin Hbad. rewrite display_suggestions_listing, Hin.
  rewrite choice_loop_rejected by done. rewrite with_io_twice.
  rewrite choice_loop_step by done. rewrite with_io_twice.
  split.
  - intros ->. rewrite select_empty. by rewrite <- !app_assoc.
  - intros s Hc Hs. rewrite (select_index ss _ s) by done.
    by rewrite <- !app_assoc.
Qed.

Lemma selector_retries_witness :
  display_suggestions
    (suggestions_value (map sample_suggestion ["a"; "b"; "c"]))
    (sample_state [] ["x"; "0"; "4"; "3"; "1"] "m")
  = (Val (VStr "c"),
     with_io (sample_state [] ["x"; "0"; "4"; "3"; "1"] "m") ["1"]
       (EBanner :: listing 1 (map sample_suggestion ["a"; "b"; "c"])
        ++ concat (map (fun _ => [EChoose; EHelp]) ["x"; "0"; "4"])
        ++ [EChoose])).
Proof.
  pose proof (selector_retries (map sample_suggestion ["a"; "b"; "c"])
                (sample_state [] ["x"; "0"; "4"; "3"; "1"] "m")
                ["x"; "0"; "4"] "3" ["1"] eq_refl eq_refl) as [_ H].
  apply (H (sample_suggestion "c")); [|reflexivity].
  do 2 apply list_elem_of_further. apply list_elem_of_here.
Defined.

(** ** The AI step and the prompts *)

(** X13. The AI step itself never raises and never exits: it returns a
    value, reads no input and leaves the message file alone. When it
    fails the value is false in a condition; otherwise the value is the
    [suggestions] entry of the response, passed on unchecked, and nothing
    is printed. *)
Theorem get_ai_suggestion_absorbs (w : world) (st : state) :
  exists v evs,
    get_ai_suggestion w st = (Val v, with_io st (stdin st) evs)
    /\ (forall e, EError e ∉ evs)
    /\ (ai_step_fails w = true -> truthy v = false)
    /\ (ai_step_fails w = false ->
        evs = [] /\ exists d, ai_completion w = Json (VDict d)
                              /\ dict_get d "suggestions" = Some v).
Proof.
  destruct (ai_step_fails w) eqn:Hf.
  - destruct (get_ai_suggestion_fails w st Hf) as (v & evs & H & Hv & He).
    exists v, evs. split; [done|]. split; [done|]. split; [done|]. done.
  - unfold ai_step_fails in Hf. unfold get_ai_suggestion.
    destruct (has_openai w); [|done]. simpl in *.
    destruct (ai_completion w) as [| |[| | | | |d]]; try done.
    destruct (dict_get d "suggestions") as [v|] eqn:Hd; [|done].
    exists v, []. rewrite with_io_id. split; [done|].
    split; [intros e H; by apply elem_of_nil in H|].
    split; [done|]. split; [done|]. by exists d.
Qed.

(** X14. A prompt is declined by one answer only, the letter [n] in either
    case with blanks around it; every other answer, an empty line, the end
    of the terminal input and a terminal that cannot be opened all count
    as yes. The prompt reads at most one line of the terminal and nothing
    else. *)
Theorem prompt_user_declines_on_n_only (st : state) :
  exists b answers,
    prompt_user st
    = (Val b, {| tty := answers; stdin := stdin st; out := out st;
                 msg_file := msg_file st |})
    /\ (b = false <->
        exists line rest, tty st = Some (line :: rest)
                          /\ lower (strip line) = "n")
    /\ (answers = tty st \/ exists line, tty st = Some (line :: default [] answers)).
Proof.
  unfold prompt_user. destruct st as [[[|line rest]|] i o f]; simpl.
  - exists true, (Some []). split; [done|]. split; [|by left].
    split; [done|]. by intros (? & ? & [=] & _).
  - eexists _, (Some rest). split; [done|]. split; [|right; by exists line].
    split.
    + intros H. exists line, rest. split; [done|].
      destruct (String.eqb (lower (strip line)) "n") eqn:E;
        [by apply String.eqb_eq in E|].
      simpl in H. by rewrite orb_true_r in H.
    + intros (l & r & [= <- <-] & ->). reflexivity.
  - exists true, None. split; [done|]. split; [|by left].
    split; [done|]. by intros (? & ? & [=] & _).
Qed.

(** ** The run as a whole *)

Section Run.

Variable w : world.
Implicit Types (st : state).

Lemma quiet_pure {A} (r : result A) :
  (forall code, r = SysExit code -> code = 0%Z) -> quiet (lift r).
Proof.
  intros H st. exists []. simpl. rewrite app_nil_r.
  split; [done|]. split; [|done]. intros e He. by apply elem_of_nil in He.
Qed.

Lemma quiet_ret {A} (a : A) : quiet (ret a).
Proof. by apply (quiet_pure (Val a)). Qed.

Lemma quiet_raise {A} (e : exn) : quiet (@raise A e).
Proof. by apply (quiet_pure (Raise e)). Qed.

Lemma quiet_sys_exit_0 {A} : quiet (@sys_exit A 0).
Proof. apply (quiet_pure (SysExit 0%Z)). by intros code [= <-]. Qed.

Lemma quiet_bind {A B} (m : Py A) (k : A -> Py B) :
  quiet m -> (forall a, quiet (k a)) -> quiet (bind m k).
Proof.
  intros Hm Hk st. unfold bind.
  destruct (Hm st) as (evs1 & Ho1 & He1 & Hc1).
  destruct (m st) as [[a|e|c] st1]; simpl in *.
  - destruct (Hk a st1) as (evs2 & Ho2 & He2 & Hc2).
    exists (evs1 ++ evs2). rewrite Ho2, Ho1, app_assoc.
    split; [done|]. split; [|done].
    intros e [H|H]%elem_of_app; [by eapply He1|by eapply He2].
  - exists evs1. split; [done|]. split; [exact He1|].
    intros code H; inversion H; subst; by apply Hc1.
  - exists evs1. split; [done|]. split; [exact He1|].
    intros code H; inversion H; subst; by apply Hc1.
Qed.

Lemma quiet_try_except {A} (m : Py A) (h : exn -> Py A) :
  quiet m -> (forall e, quiet (h e)) -> quiet (try_except m h).
Proof.
  intros Hm Hh st. unfold try_except.
  destruct (Hm st) as (evs1 & Ho1 & He1 & Hc1).
  destruct (m st) as [[a|e|c] st1]; simpl in *.
  - exists evs1. split; [done|]. split; [exact He1|].
    intros code H; inversion H; subst; by apply Hc1.
  - destruct (Hh e st1) as (evs2 & Ho2 & He2 & Hc2).
    exists (evs1 ++ evs2). rewrite Ho2, Ho1, app_assoc.
    split; [done|]. split; [|done].
    intros x [H|H]%elem_of_app; [by eapply He1|by eapply He2].
  - exists evs1. split; [done|]. split; [exact He1|].
    intros code H; inversion H; subst; by apply Hc1.
Qed.

Lemma quiet_print (e : event) : (forall x, e <> EError x) -> quiet (print e).
Proof.
  intros H st. exists [e]. simpl. split; [done|]. split; [|done].
  intros x Hx%list_elem_of_singleton. by eapply H.
Qed.

Lemma quiet_state {A} (m : Py A) :
  (forall st, out (snd (m st)) = out st) ->
  (forall st code, fst (m st) <> SysExit code) -> quiet m.
Proof.
  intros Ho Hc st. exists []. rewrite app_nil_r. split; [apply Ho|].
  split; [intros e He; by apply elem_of_nil in He|].
  intros code H. by destruct (Hc st code).
Qed.

Lemma quiet_input : quiet input.
Proof.
  apply quiet_state; intros st; unfold input; by destruct (stdin st).
Qed.

Lemma quiet_prompt_user : quiet prompt_user.
Proof.
  apply quiet_state; intros st; unfold prompt_user;
    by destruct (tty st) as [[|l r]|].
Qed.

Lemma quiet_read_msg_file : quiet (read_msg_file w).
Proof.
  apply quiet_state; intros st; unfold read_msg_file; by destruct (msg_file st).
Qed.

Lemma quiet_write_msg_file v : quiet (write_msg_file v).
Proof.
  apply quiet_state; intros st; unfold write_msg_file;
    destruct (msg_file st); by destruct v.
Qed.

Lemma subscript_str_no_exit v key code : subscript_str v key <> SysExit code.
Proof.
  unfold subscript_str. destruct v; try done. by destruct (dict_get d key).
Qed.

Lemma subscript_int_no_exit v i code : subscript_int v i <> SysExit code.
Proof.
  unfold subscript_int. destruct v; try done.
  - by destruct (String.get i s).
  - by destruct (nth_error l i).
Qed.

Lemma quiet_subscript_str v key : quiet (lift (subscript_str v key)).
Proof. apply quiet_pure. intros code H. by apply subscript_str_no_exit in H. Qed.

Lemma quiet_show_suggestions i items : quiet (show_suggestions i items).
Proof.
  revert i. induction items as [|a items IH]; intros i; [apply quiet_ret|].
  cbn [show_suggestions].
  repeat first
    [ apply quiet_bind; [|intros ?]
    | apply quiet_print; done
    | apply quiet_subscript_str
    | apply IH ].
Qed.

Lemma quiet_select v choice : quiet (select v choice).
Proof.
  unfold select. destruct (String.eqb choice ""); [apply quiet_ret|].
  destruct (existsb _ _).
  - apply quiet_bind;
      [apply quiet_pure; intros code H; by apply subscript_int_no_exit in H|].
    intros s. apply quiet_bind; [apply quiet_subscript_str|].
    intros m. apply quiet_ret.
  - apply quiet_bind; [by apply quiet_print|]. intros _. apply quiet_ret.
Qed.

Lemma quiet_choice_loop v lines : quiet (choice_loop v lines).
Proof.
  induction lines as [|l lines IH]; cbn [choice_loop].
  - apply quiet_bind; [by apply quiet_print|]. intros _.
    apply quiet_bind; [apply quiet_input|]. intros _. apply quiet_raise.
  - apply quiet_bind; [by apply quiet_print|]. intros _.
    apply quiet_bind; [apply quiet_input|]. intros line.
    apply quiet_bind; [apply quiet_select|]. intros [x|]; [apply quiet_ret|done].
Qed.

Lemma quiet_display_suggestions v : quiet (display_suggestions v).
Proof.
  unfold display_suggestions.
  apply quiet_bind; [by apply quiet_print|]. intros _.
  apply quiet_bind.
  { apply quiet_pure. intros code. unfold iterate. by destruct v. }
  intros items. apply quiet_bind; [apply quiet_show_suggestions|]. intros _.
  intros st. apply quiet_choice_loop.
Qed.

Lemma quiet_get_ai_suggestion : quiet (get_ai_suggestion w).
Proof.
  unfold get_ai_suggestion. destruct (negb (has_openai w)); [apply quiet_ret|].
  apply quiet_try_except.
  - destruct (ai_completion w) as [| |[| | | | |d]];
      apply quiet_raise || apply quiet_ret.
  - intros e. apply quiet_bind; [by apply quiet_print|]. intros _.
    apply quiet_ret.
Qed.

Lemma quiet_ai_flow : quiet (ai_flow w).
Proof.
  unfold ai_flow. apply quiet_bind; [apply quiet_prompt_user|].
  intros [|]; [|apply quiet_ret].
  apply quiet_bind; [apply quiet_get_ai_suggestion|]. intros v.
  destruct (truthy v); [|apply quiet_ret].
  apply quiet_bind; [apply quiet_display_suggestions|]. intros m.
  destruct (truthy m); [|apply quiet_ret].
  apply quiet_bind; [apply quiet_write_msg_file|]. intros _. apply quiet_ret.
Qed.

Lemma format_commit_message_no_exit msg pkg t code :
  format_commit_message w msg pkg t <> SysExit code.
Proof.
  destruct (has_char ":" msg) eqn:Hc.
  - by rewrite (format_commit_message_colon w msg).
  - unfold format_commit_message, next_iter. rewrite Hc.
    destruct t as [t|]; [destruct (String.eqb t "")|];
      try done; by destruct (set_iter w (types pkg)).
Qed.

Lemma fallback_message_no_exit msg pkgs code :
  fallback_message w msg pkgs <> SysExit code.
Proof.
  assert (forall p, header w msg p <> SysExit code) as Hh.
  { intros p. unfold header, next_iter.
    destruct (set_iter w (types p)); [done|]. cbn [rbind].
    apply format_commit_message_no_exit. }
  unfold fallback_message.
  destruct (Nat.ltb 1 (length pkgs)); destruct pkgs as [|p r]; try done.
  specialize (Hh p). by destruct (header w msg p).
Qed.

Lemma get_changed_packages_no_exit code :
  get_changed_packages w <> SysExit code.
Proof.
  unfold get_changed_packages. destruct (staged w); [|done].
  induction (group_files _) as [|[k fs] r IH]; [done|].
  cbn [make_packages].
  assert (make_package w (k, fs) <> SysExit code) as Hp.
  { unfold make_package. destruct (String.eqb k "root"); [done|].
    destruct (truthy _); [|done]. by destruct (package_json_name w k). }
  destruct (make_package w (k, fs)); [|done|intros [= ->]; by apply Hp].
  by destruct (make_packages w r).
Qed.

Lemma quiet_fallback_flow msg pkgs : quiet (fallback_flow w msg pkgs).
Proof.
  unfold fallback_flow. apply quiet_bind.
  { apply quiet_pure. intros code H. by apply fallback_message_no_exit in H. }
  intros m. apply quiet_bind; [apply quiet_prompt_user|].
  intros [|]; [apply quiet_write_msg_file|apply quiet_ret].
Qed.

Lemma quiet_main_body : quiet (main_body w).
Proof.
  unfold main_body. apply quiet_bind; [apply quiet_read_msg_file|].
  intros contents. destruct (startswith _ _); [apply quiet_sys_exit_0|].
  apply quiet_bind.
  { apply quiet_pure. intros code H. by apply get_changed_packages_no_exit in H. }
  intros pkgs. destruct (Nat.eqb _ _); [apply quiet_sys_exit_0|].
  apply quiet_bind; [apply quiet_ai_flow|].
  intros [|]; [apply quiet_ret|apply quiet_fallback_flow].
Qed.

(** [main] after a successful, non-empty collection. *)
Lemma main_after_collection st contents pkgs :
  msg_file st = Some contents ->
  startswith "Merge" (strip contents) = false ->
  get_changed_packages w = Val pkgs -> pkgs <> [] ->
  main w st =
    match ai_flow w st with
    | (Val true, st1) => (0%Z, st1)
    | (Val false, st1) =>
        match fallback_flow w (strip contents) pkgs st1 with
        | (Val _, st2) => (0%Z, st2)
        | (Raise e, st2) => (1%Z, with_io st2 (stdin st2) [EError e])
        | (SysExit code, st2) => (code, st2)
        end
    | (Raise e, st1) => (1%Z, with_io st1 (stdin st1) [EError e])
    | (SysExit code, st1) => (code, st1)
    end.
Proof.
  intros Hfile Hmerge Hpk Hne.
  unfold main, try_except, main_body, bind, read_msg_file, lift.
  rewrite Hfile, Hmerge, Hpk.
  destruct pkgs as [|p r]; [done|]. cbn [length Nat.eqb].
  destruct (ai_flow w st) as [[[|]|e|c] st1]; try done.
  by destruct (fallback_flow w (strip contents) (p :: r) st1) as [[[]|e|c] st2].
Qed.

End Run.

Section RunAI.

Variable w : world.

Lemma prompt_user_yes st a more :
  tty st = Some (a :: more) -> lower (strip a) <> "n" ->
  prompt_user st
  = (Val true, {| tty := Some more; stdin := stdin st; out := out st;
                  msg_file := msg_file st |}).
Proof.
  intros Htty Ha. unfold prompt_user. rewrite Htty.
  destruct (String.eqb (lower (strip a)) "n") eqn:E;
    [by apply String.eqb_eq in E|]. by rewrite orb_true_r.
Qed.

Lemma get_ai_suggestion_ok st d v :
  has_openai w = true -> ai_completion w = Json (VDict d) ->
  dict_get d "suggestions" = Some v ->
  get_ai_suggestion w st = (Val v, st).
Proof.
  intros Hlib Hai Hd. unfold get_ai_suggestion, try_except, ret.
  by rewrite Hlib, Hai, Hd.
Qed.

(** The AI branch once the user has asked for suggestions and the service
    has answered with a non-empty list of well-formed ones. *)
Lemma ai_flow_selects st d ss a more :
  has_openai w = true -> ai_completion w = Json (VDict d) ->
  dict_get d "suggestions" = Some (suggestions_value ss) -> ss <> [] ->
  tty st = Some (a :: more) -> lower (strip a) <> "n" ->
  ai_flow w st =
    match choice_loop (suggestions_value ss) (stdin st)
            {| tty := Some more; stdin := stdin st;
               out := out st ++ EBanner :: listing 1 ss;
               msg_file := msg_file st |} with
    | (Val m, st2) =>
        if truthy m
        then match write_msg_file m st2 with
             | (Val _, st3) => (Val true, st3)
             | (Raise e, st3) => (Raise e, st3)
             | (SysExit c, st3) => (SysExit c, st3)
             end
        else (Val false, st2)
    | (Raise e, st2) => (Raise e, st2)
    | (SysExit c, st2) => (SysExit c, st2)
    end.
Proof.
  intros Hlib Hai Hd Hss Htty Ha. unfold ai_flow, bind.
  rewrite (prompt_user_yes st a more Htty Ha).
  rewrite (get_ai_suggestion_ok _ d _ Hlib Hai Hd).
  assert (truthy (suggestions_value ss) = true) as -> by (by destruct ss).
  rewrite display_suggestions_listing. unfold with_io. simpl.
  destruct (choice_loop _ _ _) as [[m|e|c] st2]; [|done|done].
  destruct (truthy m); [|done].
  by destruct (write_msg_file m st2) as [[[]|e|c] st3].
Qed.

End RunAI.

(** X15. Two runs stop before the staged files are looked at: a message
    that starts with [Merge] once stripped ends the run with status 0 and
    nothing changed, whatever the repository and the AI service do; a
    message that cannot be read ends it with status 1, the handler
    reporting [IndexError] when the argument is missing, [OSError] when
    the file cannot be opened and [UnicodeDecodeError] when it cannot be
    decoded. *)
Theorem early_exits (w : world) (st : state) :
  (forall contents, msg_file st = Some contents ->
     startswith "Merge" (strip contents) = true -> main w st = (0%Z, st))
  /\ (msg_file st = None ->
      main w st
      = (1%Z, with_io st (stdin st)
                [EError match why_unreadable w with
                        | NoArgument => IndexError
                        | CannotOpen => OSError
                        | CannotDecode => UnicodeDecodeError
                        end])).
Proof.
  split.
  - intros contents Hfile Hmerge.
    unfold main, try_except, main_body, bind, read_msg_file.
    by rewrite Hfile, Hmerge.
  - intros Hfile. unfold main, try_except, main_body, bind, read_msg_file.
    rewrite Hfile. by destruct (why_unreadable w).
Qed.

Lemma early_exits_witness :
  main (sample_world None CallRaises)
       (sample_state ["y"] ["1"] "  Merge branch 'main' into dev")
  = (0%Z, sample_state ["y"] ["1"] "  Merge branch 'main' into dev")
  /\ main {| staged := None; package_json_name := fun _ => VNone;
             set_iter := elements; has_openai := true;
             ai_completion := CallRaises; why_unreadable := NoArgument |}
          {| tty := None; stdin := []; out := []; msg_file := None |}
     = (1%Z, {| tty := None; stdin := []; out := [EError IndexError];
                msg_file := None |}).
Proof.
  split.
  - apply (proj1 (early_exits (sample_world None CallRaises)
                    (sample_state ["y"] ["1"] "  Merge branch 'main' into dev"))
             "  Merge branch 'main' into dev"); reflexivity.
  - apply (proj2 (early_exits
                    {| staged := None; package_json_name := fun _ => VNone;
                       set_iter := elements; has_openai := true;
                       ai_completion := CallRaises;
                       why_unreadable := NoArgument |}
                    {| tty := None; stdin := []; out := [];
                       msg_file := None |})).
    reflexivity.
Defined.

(** X16. The exit status of a run is 0 or 1, and it is 1 exactly when the
    handler of [main] has reported an exception, as the last thing
    printed. *)
Theorem exit_status (w : world) (st : state) :
  exists evs,
    (forall e, EError e ∉ evs)
    /\ ((fst (main w st) = 0%Z /\ out (snd (main w st)) = out st ++ evs)
        \/ (fst (main w st) = 1%Z
            /\ exists e, out (snd (main w st)) = out st ++ evs ++ [EError e])).
Proof.
  destruct (quiet_main_body w st) as (evs & Ho & He & Hc).
  exists evs. split; [done|].
  unfold main, try_except.
  destruct (main_body w st) as [[[]|e|c] st1]; simpl in *.
  - by left.
  - right. split; [done|]. exists e. by rewrite Ho, app_assoc.
  - left. by rewrite (Hc c eq_refl).
Qed.

(** X17. When the user answers [n] to both prompts the message file is
    left as it was and the run ends with status 0: nothing is printed by
    the selector and only the two answers are read. *)
Theorem declining_both_prompts (w : world) (st : state) (contents : string)
  (pkgs : list package) (a1 a2 : string) (more : list string) :
  (forall s, s <> ∅ -> set_iter w s <> []) ->
  msg_file st = Some contents ->
  startswith "Merge" (strip contents) = false ->
  get_changed_packages w = Val pkgs -> pkgs <> [] ->
  tty st = Some (a1 :: a2 :: more) ->
  lower (strip a1) = "n" -> lower (strip a2) = "n" ->
  main w st = (0%Z, {| tty := Some more; stdin := stdin st; out := out st;
                       msg_file := Some contents |}).
Proof.
  intros Hiter Hfile Hmerge Hpk Hne Htty H1 H2.
  rewrite (main_after_collection w st contents pkgs) by done.
  assert (forall p, p ∈ pkgs -> types p <> ∅) as Hty.
  { unfold get_changed_packages in Hpk. destruct (staged w); [|done].
    by eapply make_packages_types. }
  destruct (fallback_message_total w Hiter (strip contents) pkgs Hne Hty)
    as [new_msg Hmsg].
  unfold ai_flow, fallback_flow, bind, prompt_user, lift.
  rewrite Htty, H1. simpl. rewrite Hmsg, H2. simpl. by rewrite Hfile.
Qed.

Lemma declining_both_prompts_witness :
  main (sample_world (Some "packages/api/src/index.ts") CallRaises)
       (sample_state ["n"; " N "; "later"] ["1"] "add endpoint")
  = (0%Z, sample_state ["later"] ["1"] "add endpoint").
Proof.
  apply (declining_both_prompts
           (sample_world (Some "packages/api/src/index.ts") CallRaises)
           (sample_state ["n"; " N "; "later"] ["1"] "add endpoint")
           "add endpoint"
           [{| name := "api"; scope := "api";
               files := ["packages/api/src/index.ts"];
               types := {["feat"]} |}]
           "n" " N " ["later"]);
    try reflexivity; try discriminate; try (vm_compute; reflexivity).
  intros s Hs He. apply Hs. apply leibniz_equiv. by apply elements_empty_inv.
Defined.

(** X18. When the AI answers with well-formed suggestions, the user asks
    for them and picks one by a valid index, and its message is not empty,
    the message file holds exactly that message at the end, the second
    prompt is never asked and the run ends with status 0. *)
Theorem accepted_suggestion_is_written (w : world) (st : state)
  (contents : string) (pkgs : list package) (d : list (string * value))
  (ss : list suggestion) (s : suggestion)
  (a : string) (more : list string) (line : string) (rest : list string) :
  msg_file st = Some contents ->
  startswith "Merge" (strip contents) = false ->
  get_changed_packages w = Val pkgs -> pkgs <> [] ->
  has_openai w = true ->
  ai_completion w = Json (VDict d) ->
  dict_get d "suggestions" = Some (suggestions_value ss) ->
  tty st = Some (a :: more) -> lower (strip a) <> "n" ->
  stdin st = line :: rest ->
  strip line ∈ ["1"; "2"; "3"] ->
  nth_error ss (int (strip line) - 1) = Some s ->
  sg_message s <> "" ->
  main w st
  = (0%Z, {| tty := Some more; stdin := rest;
             out := out st ++ EBanner :: listing 1 ss ++ [EChoose];
             msg_file := Some (sg_message s) |}).
Proof.
  intros Hfile Hmerge Hpk Hne Hlib Hai Hd Htty Ha Hin Hc Hs Hm.
  rewrite (main_after_collection w st contents pkgs) by done.
  assert (ss <> []) as Hss
    by (intros ->; by destruct (int (strip line) - 1)).
  rewrite (ai_flow_selects w st d ss a more) by done.
  rewrite Hin. rewrite choice_loop_step by done.
  rewrite (select_index ss _ s) by done.
  assert (truthy (VStr (sg_message s)) = true) as ->.
  { simpl. destruct (String.eqb (sg_message s) "") eqn:E; [|done].
    by apply String.eqb_eq in E. }
  unfold write_msg_file, with_io. simpl. rewrite Hfile.
  by rewrite <- app_assoc.
Qed.

Lemma accepted_suggestion_is_written_witness :
  main (sample_world (Some "README.md")
          (Json (VDict [("suggestions",
                         suggestions_value
                           (map sample_suggestion ["docs: a"; "docs: b"]))])))
       (sample_state ["yes"; "n"] ["2"; "x"] "update readme")
  = (0%Z, {| tty := Some ["n"]; stdin := ["x"];
             out := [] ++ EBanner
                    :: listing 1 (map sample_suggestion ["docs: a"; "docs: b"])
                    ++ [EChoose];
             msg_file := Some "docs: b" |}).
Proof.
  apply (accepted_suggestion_is_written
           (sample_world (Some "README.md")
              (Json (VDict [("suggestions",
                             suggestions_value
                               (map sample_suggestion ["docs: a"; "docs: b"]))])))
           (sample_state ["yes"; "n"] ["2"; "x"] "update readme")
           "update readme"
           [{| name := "root"; scope := "root"; files := ["README.md"];
               types := {["docs"]} |}]
           [("suggestions",
             suggestions_value (map sample_suggestion ["docs: a"; "docs: b"]))]
           (map sample_suggestion ["docs: a"; "docs: b"])
           (sample_suggestion "docs: b") "yes" ["n"] "2" ["x"]);
    try reflexivity; try discriminate; try (vm_compute; reflexivity).
  apply list_elem_of_further, list_elem_of_here.
Defined.

(** X19. The end of standard input during the selection is not a skip:
    with suggestions on display and nothing left to read, [input] raises
    [EOFError], the run ends with status 1 and the message file is left as
    it was. *)
Theorem end_of_input_is_fatal (w : world) (st : state)
  (contents : string) (pkgs : list package) (d : list (string * value))
  (ss : list suggestion) (a : string) (more : list string) :
  msg_file st = Some contents ->
  startswith "Merge" (strip contents) = false ->
  get_changed_packages w = Val pkgs -> pkgs <> [] ->
  has_openai w = true ->
  ai_completion w = Json (VDict d) ->
  dict_get d "suggestions" = Some (suggestions_value ss) -> ss <> [] ->
  tty st = Some (a :: more) -> lower (strip a) <> "n" ->
  stdin st = [] ->
  main w st
  = (1%Z, {| tty := Some more; stdin := [];
             out := out st ++ EBanner :: listing 1 ss
                    ++ [EChoose; EError EOFError];
             msg_file := Some contents |}).
Proof.
  intros Hfile Hmerge Hpk Hne Hlib Hai Hd Hss Htty Ha Hin.
  rewrite (main_after_collection w st contents pkgs) by done.
  rewrite (ai_flow_selects w st d ss a more) by done.
  rewrite Hin. cbn [choice_loop].
  unfold bind, print, input, with_io. simpl. rewrite Hfile.
  by rewrite <- !app_assoc.
Qed.

Lemma end_of_input_is_fatal_witness :
  main (sample_world (Some "README.md")
          (Json (VDict [("suggestions",
                         suggestions_value [sample_suggestion "docs: a"])])))
       (sample_state ["y"; "y"] [] "update readme")
  = (1%Z, {| tty := Some ["y"]; stdin := [];
             out := [] ++ EBanner :: listing 1 [sample_suggestion "docs: a"]
                    ++ [EChoose; EError EOFError];
             msg_file := Some "update readme" |}).
Proof.
  apply (end_of_input_is_fatal
           (sample_world (Some "README.md")
              (Json (VDict [("suggestions",
                             suggestions_value [sample_suggestion "docs: a"])])))
           (sample_state ["y"; "y"] [] "update readme") "update readme"
           [{| name := "root"; scope := "root"; files := ["README.md"];
               types := {["docs"]} |}]
           [("suggestions", suggestions_value [sample_suggestion "docs: a"])]
           [sample_suggestion "docs: a"] "y" ["y"]);
    try reflexivity; try discriminate; try (vm_compute; reflexivity).
Defined.

(** ** The configuration handler *)

Section Configuration.

Import Config.

Implicit Types (environ : gmap string string) (config : gmap string value).

Lemma apply_env_lookup environ config env_var config_key transform key :
  apply_env environ config (env_var, (config_key, transform)) !! key
  = match (if String.eqb config_key key
           then option_map transform (environ !! env_var) else None) with
    | Some v => Some v
    | None => config !! key
    end.
Proof.
  unfold apply_env. destruct (String.eqb config_key key) eqn:E.
  - apply String.eqb_eq in E as ->.
    destruct (environ !! env_var); simpl; [by rewrite lookup_insert_eq|done].
  - apply String.eqb_neq in E.
    destruct (environ !! env_var); simpl; [by rewrite lookup_insert_ne|done].
Qed.

Lemma foldl_apply_env environ mappings config key :
  foldl (apply_env environ) config mappings !! key
  = match env_override environ mappings key with
    | Some v => Some v
    | None => config !! key
    end.
Proof.
  revert config. induction mappings as [|[env_var [config_key transform]] r IH];
    intros config; simpl; [done|].
  rewrite IH. destruct (env_override environ r key); [done|].
  apply apply_env_lookup.
Qed.

Lemma update_lookup config other key :
  update config other !! key
  = match other !! key with
    | Some v => Some v
    | None => config !! key
    end.
Proof.
  unfold update. rewrite lookup_union.
  by destruct (other !! key), (config !! key).
Qed.

End Configuration.

(** X20. The configuration is layered: for every key, read with [get],
    the value set through the environment wins, then the value of the
    repository's file, then the value of the user's file, then the
    built-in default, then the default passed to [get]. Each of the six
    variables sets its own key, to its transformed value, whenever it is
    defined. *)
Theorem config_precedence (global_config local_config : gmap string value)
  (environ : gmap string string) (key : string) (default : value) :
  Config.get (Config._load_configurations global_config local_config environ)
    key default
  = match Config.env_override environ Config.env_mappings key with
    | Some v => v
    | None =>
        match local_config !! key with
        | Some v => v
        | None =>
            match global_config !! key with
            | Some v => v
            | None =>
                match Config.DEFAULT_CONFIG !! key with
                | Some v => v
                | None => default
                end
            end
        end
    end
  /\ (forall env_var config_key transform x,
        (env_var, (config_key, transform)) ∈ Config.env_mappings ->
        environ !! env_var = Some x ->
        Config.env_override environ Config.env_mappings config_key
        = Some (transform x))
  /\ ((forall env_var, environ !! env_var = None) ->
      Config.env_override environ Config.env_mappings key = None).
Proof.
  split; [|split].
  - unfold Config.get, Config._load_configurations.
    rewrite foldl_apply_env, !update_lookup.
    destruct (Config.env_override _ _ _); [done|].
    destruct (local_config !! key); [done|].
    by destruct (global_config !! key).
  - intros env_var config_key transform x Hin Hx.
    unfold Config.env_mappings in Hin.
    repeat (apply elem_of_cons in Hin as [[= -> -> ->]|Hin];
            [cbn; by rewrite Hx|]).
    by apply elem_of_nil in Hin.
  - intros Hnone. cbn. rewrite !Hnone. cbn.
    by repeat match goal with
              | |- context [if ?b then _ else _] => destruct b
              end.
Qed.

Lemma config_precedence_witness :
  Config.get
    (Config._load_configurations
       {["azure_deployment" := VStr "user-model"; "debug" := VBool true]}
       {["azure_deployment" := VStr "repo-model"]}
       {["GITGUARD_AUTO" := "Yes"]})
    "azure_deployment" VNone
  = VStr "repo-model"
  /\ Config.env_override {["GITGUARD_AUTO" := "Yes"]} Config.env_mappings
       "auto_mode"
     = Some (VBool true).
Proof.
  pose proof (config_precedence
                {["azure_deployment" := VStr "user-model"; "debug" := VBool true]}
                {["azure_deployment" := VStr "repo-model"]}
                {["GITGUARD_AUTO" := "Yes"]} "azure_deployment" VNone)
    as (H1 & H2 & _).
  split.
  - rewrite H1. vm_compute. reflexivity.
  - apply (H2 "GITGUARD_AUTO" "auto_mode" Config.flag "Yes");
      [apply list_elem_of_here|vm_compute; reflexivity].
Defined.

(** X21. When the user declines the AI suggestions and accepts the
    suggested message, the message file ends up holding the fallback
    message, whatever the AI service would have answered; the run ends
    with status 0 and reads nothing but the two answers. *)
Theorem accepted_fallback_is_written (w : world) (st : state)
  (contents : string) (pkgs : list package) (a1 a2 : string)
  (more : list string) :
  (forall s, s <> ∅ -> set_iter w s <> []) ->
  msg_file st = Some contents ->
  startswith "Merge" (strip contents) = false ->
  get_changed_packages w = Val pkgs -> pkgs <> [] ->
  tty st = Some (a1 :: a2 :: more) ->
  lower (strip a1) = "n" -> lower (strip a2) <> "n" ->
  exists new_msg,
    fallback_message w (strip contents) pkgs = Val new_msg
    /\ main w st = (0%Z, {| tty := Some more; stdin := stdin st;
                            out := out st; msg_file := Some new_msg |}).
Proof.
  intros Hiter Hfile Hmerge Hpk Hne Htty H1 H2.
  rewrite (main_after_collection w st contents pkgs) by done.
  assert (forall p, p ∈ pkgs -> types p <> ∅) as Hty.
  { unfold get_changed_packages in Hpk. destruct (staged w); [|done].
    by eapply make_packages_types. }
  destruct (fallback_message_total w Hiter (strip contents) pkgs Hne Hty)
    as [new_msg Hmsg].
  exists new_msg. split; [done|].
  unfold ai_flow, bind. unfold prompt_user at 1. rewrite Htty, H1. simpl.
  unfold fallback_flow, bind, lift. rewrite Hmsg.
  rewrite (prompt_user_yes _ a2 more) by done.
  unfold write_msg_file. simpl. by rewrite Hfile.
Qed.

Lemma accepted_fallback_is_written_witness :
  exists new_msg,
    fallback_message
      (sample_world (Some "packages/api/src/index.ts") CallRaises)
      "add endpoint"
      [{| name := "api"; scope := "api";
          files := ["packages/api/src/index.ts"]; types := {["feat"]} |}]
    = Val new_msg
    /\ main (sample_world (Some "packages/api/src/index.ts") CallRaises)
            (sample_state ["n"; ""] [] " add endpoint ")
       = (0%Z, {| tty := Some []; stdin := []; out := [];
                  msg_file := Some new_msg |}).
Proof.
  apply (accepted_fallback_is_written
           (sample_world (Some "packages/api/src/index.ts") CallRaises)
           (sample_state ["n"; ""] [] " add endpoint ") " add endpoint "
           [{| name := "api"; scope := "api";
               files := ["packages/api/src/index.ts"];
               types := {["feat"]} |}]
           "n" "" []);
    try reflexivity; try discriminate; try (vm_compute; reflexivity).
  intros s Hs He. apply Hs. apply leibniz_equiv. by apply elements_empty_inv.
Defined.

(** ** The failing AI step, in full *)

Section AIFailure.

Variable w : world.



End AIFailure.


